(** * Signed-distance-field scene evaluator ([sdf_util.hpp])

    A shallow embedding of the distance combinators, the primitive distance
    functions, the Mandelbulb distance estimator, the two scene composers and
    the two colour samplers of [sdf_util.hpp].

    The program is written once, over an interface of scalar operations
    ([FloatOps]) and of math-library functions ([Libm]).  Two instances are
    given: IEEE-754 binary32 ([B32], built on [SpecFloat], executable) and the
    real numbers ([RealModel], the exact arithmetic the floats approximate). *)

From Stdlib Require Import ZArith Bool Lia.
From Stdlib Require Import Floats.SpecFloat.
From Stdlib Require Import Reals Lra.

Set Implicit Arguments.

(** ** Scalar interface *)

(** The operations [float] offers to the program.  [flit n d] is the literal
    whose decimal value is [n/d]; [fltb a b] is the C comparison [a < b]. *)
Class FloatOps (F : Type) : Type := {
  fadd  : F -> F -> F;
  fsub  : F -> F -> F;
  fmul  : F -> F -> F;
  fdiv  : F -> F -> F;
  fneg  : F -> F;
  fltb  : F -> F -> bool;
  flit  : Z -> positive -> F;
  sqrtf : F -> F;
  fminf : F -> F -> F;
  fmaxf : F -> F -> F;
  fmodf : F -> F -> F
}.

(** The transcendental functions [mandelbulb] calls. *)
Class Libm (F : Type) : Type := {
  asinf  : F -> F;
  atan2f : F -> F -> F;
  powf   : F -> F -> F;
  cosf   : F -> F;
  sinf   : F -> F;
  logf   : F -> F
}.

Declare Scope fl_scope.
Delimit Scope fl_scope with fl.
Infix "+" := fadd : fl_scope.
Infix "-" := fsub : fl_scope.
Infix "*" := fmul : fl_scope.
Infix "/" := fdiv : fl_scope.
Notation "- a" := (fneg a) : fl_scope.
Notation "a <? b" := (fltb a b) : fl_scope.
Notation "a >? b" := (fltb b a) : fl_scope.

(** ** Vectors *)

Record float3 (F : Type) : Type := make_float3 { fx : F; fy : F; fz : F }.

Arguments make_float3 {F} _ _ _.
Arguments fx {F} _.
Arguments fy {F} _.
Arguments fz {F} _.

Section Vectors.
Context {F : Type} {ops : FloatOps F}.
Local Open Scope fl_scope.

(** Modelled from the spec: [cutil_math.h], which declares the [float3]
    helpers, is not among the sources.  [make_float3(s)] with one argument
    fills the three components with [s] (the spec reads
    [make_float3(0.85f)] as (0.85,0.85,0.85)). *)
Definition make_float3_1 (s : F) : float3 F := make_float3 s s s.

(** Modelled from the spec: [dot] of [cutil_math.h], the scalar product
    [a.x*b.x + a.y*b.y + a.z*b.z]. *)
Definition dot (a b : float3 F) : F :=
  fx a * fx b + fy a * fy b + fz a * fz b.

(** Modelled from the spec: [length] of [cutil_math.h], the norm [|v|]
    computed as [sqrtf(dot(v, v))]. *)
Definition length (v : float3 F) : F := sqrtf (dot v v).

(** Modelled from the spec: [operator-] on [float3], componentwise. *)
Definition vsub (a b : float3 F) : float3 F :=
  make_float3 (fx a - fx b) (fy a - fy b) (fz a - fz b).

(** Modelled from the spec: [operator+=] on [float3], componentwise. *)
Definition vadd (a b : float3 F) : float3 F :=
  make_float3 (fx a + fx b) (fy a + fy b) (fz a + fz b).

(** Modelled from the spec: [operator/] of a [float3] by a scalar, written
    [pos/2.3] in the spec: each component divided by the scalar. *)
Definition vdivs (a : float3 F) (s : F) : float3 F :=
  make_float3 (fx a / s) (fy a / s) (fz a / s).

(** Modelled from the spec: [operator*] of a scalar by a [float3]. *)
Definition smulv (s : F) (a : float3 F) : float3 F :=
  make_float3 (s * fx a) (s * fy a) (s * fz a).
End Vectors.

(** ** The program *)

Section Program.
Context {F : Type} {ops : FloatOps F}.
Local Open Scope fl_scope.

Definition sdfUnion (a b : F) : F := fminf a b.

Definition sdfDifference (a b : F) : F := fmaxf (- a) b.

Definition sdfIntersection (a b : F) : F := fmaxf a b.

Definition sdfSphere (pos : float3 F) (radius : F) : F :=
  length pos - radius.

Definition sdfPlane (pos n : float3 F) : F := dot pos n.

Section Fractal.
Context {lm : Libm F}.

(** The body of the [for] loop after the bailout test: from the iterate
    [z], its norm [r] and the running derivative [dr], the next iterate
    and derivative. *)
Definition mandelbulb_body (pos : float3 F) (power : F)
           (z : float3 F) (r dr : F) : float3 F * F :=
  let theta := asinf (fz z / r) in
  let phi := atan2f (fy z) (fx z) in
  let dr := powf r (power - flit 1 1) * power * dr + flit 1 1 in
  let zr := powf r power in
  let theta := theta * power in
  let phi := phi * power in
  let z := smulv zr (make_float3 (cosf theta * cosf phi)
                                 (sinf phi * cosf theta)
                                 (sinf theta)) in
  (vadd z pos, dr).

(** The [for] loop, [n] iterations left; returns the final [(dr, r)]. *)
Fixpoint mandelbulb_loop (n : nat) (pos : float3 F) (bail power : F)
         (z : float3 F) (dr r : F) {struct n} : F * F :=
  match n with
  | O => (dr, r)
  | S n' =>
      let r := length z in
      if r >? bail then (dr, r)
      else
        let '(z', dr') := mandelbulb_body pos power z r dr in
        mandelbulb_loop n' pos bail power z' dr' r
  end.

Definition mandelbulb (pos : float3 F) (iterations : Z) (bail power : F) : F :=
  let '(dr, r) :=
    mandelbulb_loop (Z.to_nat iterations) pos bail power
                    pos (flit 1 1) (flit 0 1) in
  flit 5 10 * logf r * r / dr.

Definition mandelbulbScene (pos : float3 F) : F :=
  let mb := mandelbulb (vdivs pos (flit 23 10)) 8 (flit 4 1) (flit 8 1)
            * flit 23 10 in
  let plane :=
    sdfPlane (vsub pos (make_float3 (flit 0 1) (- flit 2 1) (flit 0 1)))
             (make_float3 (flit 0 1) (flit 1 1) (flit 0 1)) in
  sdfUnion mb plane.

Definition mandelbulbColor (pos : float3 F) : float3 F :=
  let mb := mandelbulb (vdivs pos (flit 23 10)) 8 (flit 4 1) (flit 8 1)
            * flit 23 10 in
  let plane :=
    sdfPlane (vsub pos (make_float3 (flit 0 1) (- flit 2 1) (flit 0 1)))
             (make_float3 (flit 0 1) (flit 1 1) (flit 0 1)) in
  if plane <? mb then make_float3_1 (flit 85 100)
  else make_float3 (flit 85 100) (flit 1 1) (flit 0 1).
End Fractal.

Definition sphereScene (pos : float3 F) : F :=
  let mod1 := make_float3 (fmodf (fx pos) (flit 2 1) - flit 1 1)
                          (fy pos + flit 15 10)
                          (fmodf (fz pos) (flit 2 1) - flit 1 1) in
  let spheres1 := sdfSphere mod1 (flit 5 10) in
  let mod2 := make_float3 (- fmodf (fx pos) (flit 2 1) - flit 1 1)
                          (fy pos + flit 15 10)
                          (fmodf (fz pos) (flit 2 1) - flit 1 1) in
  let spheres2 := sdfSphere mod2 (flit 5 10) in
  let mod3 := make_float3 (fmodf (fx pos) (flit 2 1) - flit 1 1)
                          (fy pos + flit 15 10)
                          (- fmodf (fz pos) (flit 2 1) - flit 1 1) in
  let spheres3 := sdfSphere mod3 (flit 5 10) in
  let mod4 := make_float3 (- fmodf (fx pos) (flit 2 1) - flit 1 1)
                          (fy pos + flit 15 10)
                          (- fmodf (fz pos) (flit 2 1) - flit 1 1) in
  let spheres4 := sdfSphere mod4 (flit 5 10) in
  let spheres :=
    sdfUnion (sdfUnion (sdfUnion spheres1 spheres2) spheres3) spheres4 in
  let plane :=
    sdfPlane (vsub pos (make_float3 (flit 0 1) (- flit 2 1) (flit 0 1)))
             (make_float3 (flit 0 1) (flit 1 1) (flit 0 1)) in
  sdfUnion spheres plane.

Definition sphereColor (pos : float3 F) : float3 F :=
  let mod1 := make_float3 (fmodf (fx pos) (flit 2 1) - flit 1 1)
                          (fy pos + flit 15 10)
                          (fmodf (fz pos) (flit 2 1) - flit 1 1) in
  let spheres1 := sdfSphere mod1 (flit 5 10) in
  let mod2 := make_float3 (- fmodf (fx pos) (flit 2 1) - flit 1 1)
                          (fy pos + flit 15 10)
                          (fmodf (fz pos) (flit 2 1) - flit 1 1) in
  let spheres2 := sdfSphere mod2 (flit 5 10) in
  let mod3 := make_float3 (fmodf (fx pos) (flit 2 1) - flit 1 1)
                          (fy pos + flit 15 10)
                          (- fmodf (fz pos) (flit 2 1) - flit 1 1) in
  let spheres3 := sdfSphere mod3 (flit 5 10) in
  let mod4 := make_float3 (- fmodf (fx pos) (flit 2 1) - flit 1 1)
                          (fy pos + flit 15 10)
                          (- fmodf (fz pos) (flit 2 1) - flit 1 1) in
  let spheres4 := sdfSphere mod4 (flit 5 10) in
  let spheres :=
    sdfUnion (sdfUnion (sdfUnion spheres1 spheres2) spheres3) spheres4 in
  let plane :=
    sdfPlane (vsub pos (make_float3 (flit 0 1) (- flit 2 1) (flit 0 1)))
             (make_float3 (flit 0 1) (flit 1 1) (flit 0 1)) in
  if plane <? spheres then make_float3 (flit 1 1) (flit 3 10) (flit 1 10)
  else make_float3_1 (flit 85 100).
End Program.

(** ** Sub-distances named by the specification *)

Section SubDistances.
Context {F : Type} {ops : FloatOps F}.
Local Open Scope fl_scope.

(** The ground floor: the plane through (0,-2,0) with normal (0,1,0). *)
Definition ground_plane (pos : float3 F) : F :=
  dot (vsub pos (make_float3 (flit 0 1) (- flit 2 1) (flit 0 1)))
      (make_float3 (flit 0 1) (flit 1 1) (flit 0 1)).

(** The fractal term: the estimator on the point scaled down by 2.3, its
    estimate scaled back up by 2.3. *)
Definition fractal_term {lm : Libm F} (pos : float3 F) : F :=
  mandelbulb (vdivs pos (flit 23 10)) 8 (flit 4 1) (flit 8 1) * flit 23 10.

(** One sphere lattice: period 2 along x and z, the remainder optionally
    sign-flipped ([nx], [nz]), centred at height -1.5, radius 0.5. *)
Definition lattice (nx nz : bool) (pos : float3 F) : F :=
  let mx := fmodf (fx pos) (flit 2 1) in
  let mz := fmodf (fz pos) (flit 2 1) in
  sqrtf (dot
    (make_float3 ((if nx then - mx else mx) - flit 1 1)
                 (fy pos + flit 15 10)
                 ((if nz then - mz else mz) - flit 1 1))
    (make_float3 ((if nx then - mx else mx) - flit 1 1)
                 (fy pos + flit 15 10)
                 ((if nz then - mz else mz) - flit 1 1)))
  - flit 5 10.

(** The combined spheres: the four sign variants, unioned left to right. *)
Definition lattice_spheres (pos : float3 F) : F :=
  fminf (fminf (fminf (lattice false false pos) (lattice true false pos))
               (lattice false true pos))
        (lattice true true pos).
End SubDistances.

(** ** The binary32 instance *)

Module B32.
Definition prec : Z := 24.
Definition emax : Z := 128.

Abbreviation float := spec_float (only parsing).

(** Conversion of an integer, rounding to nearest even. *)
Definition of_Z (n : Z) : float := binary_normalize prec emax n 0 false.

(** [fminf] of the C library: a NaN operand is treated as missing data,
    otherwise the smaller operand; on a tie the second operand. *)
Definition b32_fminf (a b : float) : float :=
  match a, b with
  | S754_nan, _ => b
  | _, S754_nan => a
  | _, _ => if SFltb a b then a else b
  end.

(** [fmaxf] of the C library, the mirror image of [b32_fminf]. *)
Definition b32_fmaxf (a b : float) : float :=
  match a, b with
  | S754_nan, _ => b
  | _, S754_nan => a
  | _, _ => if SFltb b a then a else b
  end.

(** [fmodf] of the C library: the remainder of the division truncated
    towards zero; it is exact and carries the sign of the dividend. *)
Definition b32_fmodf (a b : float) : float :=
  match a, b with
  | S754_nan, _ | _, S754_nan => S754_nan
  | S754_infinity _, _ => S754_nan
  | _, S754_zero _ => S754_nan
  | S754_zero _, _ => a
  | S754_finite _ _ _, S754_infinity _ => a
  | S754_finite sa ma ea, S754_finite _ mb eb =>
      let ez := Z.min ea eb in
      let ia := Zpos (fst (shl_align ma ea ez)) in
      let ib := Zpos (fst (shl_align mb eb ez)) in
      binary_normalize prec emax (cond_Zopp sa (Z.rem ia ib)) ez sa
  end.

#[export] Instance ops : FloatOps float := {
  fadd := SFadd prec emax;
  fsub := SFsub prec emax;
  fmul := SFmul prec emax;
  fdiv := SFdiv prec emax;
  fneg := SFopp;
  fltb := SFltb;
  flit := fun n d => SFdiv prec emax (of_Z n) (of_Z (Zpos d));
  sqrtf := SFsqrt prec emax;
  fminf := b32_fminf;
  fmaxf := b32_fmaxf;
  fmodf := b32_fmodf
}.

Definition is_nan (a : float) : bool :=
  match a with S754_nan => true | _ => false end.

Definition is_finite (a : float) : bool :=
  match a with S754_zero _ | S754_finite _ _ _ => true | _ => false end.

(** The floats a binary32 variable can hold. *)
Definition valid (a : float) : bool := valid_binary prec emax a.

Definition valid3 (p : float3 float) : bool :=
  valid (fx p) && valid (fy p) && valid (fz p).
End B32.


(** ** The real-number instance

    The arithmetic the floats approximate, as a reference model: every
    operation is exact, there is no rounding, no overflow, no NaN, no
    infinity and no signed zero; a division by zero and the logarithm of zero
    take Rocq's conventional value 0, and [pow(0, y)] is 0 or 1.  It is not
    the program's arithmetic: a statement proved on this instance says what
    the formulas compute in exact arithmetic, and is labelled so; statements
    about the code are proved on [B32] or on every instance. *)

Module RealModel.
Local Open Scope R_scope.

Definition Rltb (a b : R) : bool := if Rlt_dec a b then true else false.

(** Rounding towards zero, as [fmodf] uses it. *)
Definition Rtrunc (t : R) : R :=
  if Rle_dec 0 t then IZR (Int_part t) else - IZR (Int_part (- t)).

Definition R_fmod (a b : R) : R := a - b * Rtrunc (a / b).

(** [pow(x, y)] where the C function has a real value: [x > 0], or [x = 0]
    with [y >= 0]. *)
Definition R_pow (a b : R) : R :=
  if Rlt_dec 0 a then Rpower a b
  else if Req_dec_T b 0 then 1 else 0.

(** [atan2(y, x)], the angle of the point [(x, y)] in (-PI, PI]. *)
Definition R_atan2 (b a : R) : R :=
  if Rlt_dec 0 a then atan (b / a)
  else if Rlt_dec a 0 then
    (if Rle_dec 0 b then atan (b / a) + PI else atan (b / a) - PI)
  else if Rlt_dec 0 b then PI / 2
  else if Rlt_dec b 0 then - (PI / 2)
  else 0.

#[export] Instance ops : FloatOps R := {
  fadd := Rplus;
  fsub := Rminus;
  fmul := Rmult;
  fdiv := Rdiv;
  fneg := Ropp;
  fltb := Rltb;
  flit := fun n d => IZR n / IZR (Zpos d);
  sqrtf := sqrt;
  fminf := Rmin;
  fmaxf := Rmax;
  fmodf := R_fmod
}.

#[export] Instance libm : Libm R := {
  asinf := asin;
  atan2f := R_atan2;
  powf := R_pow;
  cosf := cos;
  sinf := sin;
  logf := ln
}.
End RealModel.

(** ** The escape-time algorithm, as the specification words it *)

Section EscapeTime.
Context {F : Type} {ops : FloatOps F} {lm : Libm F}.
Local Open Scope fl_scope.

(** Steps b to e on the pair (iterate, derivative): spherical coordinates of
    [z], derivative update, radius raised to [power], angles scaled by
    [power], cartesian reconstruction, translation by [pos]. *)
Definition spherical_step (pos : float3 F) (power : F)
           (s : float3 F * F) : float3 F * F :=
  let r := length (fst s) in
  let theta := asinf (fz (fst s) / r) in
  let phi := atan2f (fy (fst s)) (fx (fst s)) in
  (vadd (smulv (powf r power)
               (make_float3 (cosf (theta * power) * cosf (phi * power))
                            (sinf (phi * power) * cosf (theta * power))
                            (sinf (theta * power))))
        pos,
   powf r (power - flit 1 1) * power * snd s + flit 1 1).

(** The iterates with no bailout: [orbit pos power k] is [(z, dr)] after [k]
    full steps from [z = pos], [dr = 1]. *)
Fixpoint orbit (pos : float3 F) (power : F) (k : nat) : float3 F * F :=
  match k with
  | O => (pos, flit 1 1)
  | S k' => spherical_step pos power (orbit pos power k')
  end.

(** The norm [r = |z|] measured at the start of step [k]. *)
Definition radius_at (pos : float3 F) (power : F) (k : nat) : F :=
  length (fst (orbit pos power k)).

(** Step [k] escapes: its radius exceeds the bailout threshold. *)
Definition escaped (pos : float3 F) (bail power : F) (k : nat) : bool :=
  radius_at pos power k >? bail.

(** The distance estimate [0.5 * ln(r) * r / dr]. *)
Definition estimate (r dr : F) : F := flit 5 10 * logf r * r / dr.

(** The radius held by [r] when the loop stops at step [k] of at most [n]:
    the one measured at step [k] if the loop got that far, else the last one
    measured ([0] if none was). *)
Definition last_radius (pos : float3 F) (power : F) (n k : nat) : F :=
  if (k <? n)%nat then radius_at pos power k
  else match n with
       | O => flit 0 1
       | S m => radius_at pos power m
       end.
End EscapeTime.

(** ** Order laws of the scalar interface *)

(** What the colour samplers need of [<] and [fminf]: the comparison is
    asymmetric and [fminf] returns the strictly smaller operand. *)
Class FloatLaws (F : Type) {ops : FloatOps F} : Prop := {
  fltb_asym : forall a b : F, fltb a b = true -> fltb b a = false;
  fminf_lt_l : forall a b : F, fltb a b = true -> fminf a b = a;
  fminf_lt_r : forall a b : F, fltb b a = true -> fminf a b = b
}.

Arguments FloatLaws F {ops}.

(** ** Binary32: the order behind [<] and [fminf] *)

Section B32Keys.
Import B32.
Local Open Scope Z_scope.

(** A key whose lexicographic order is the order of [SFcompare] on numbers;
    NaN is given the largest key, the two zeros share theirs. *)
Definition key (a : float) : Z * Z * Z :=
  match a with
  | S754_nan => (3, 0, 0)
  | S754_infinity true => (-2, 0, 0)
  | S754_infinity false => (2, 0, 0)
  | S754_zero _ => (0, 0, 0)
  | S754_finite true m e => (-1, - e, Zneg m)
  | S754_finite false m e => (1, e, Zpos m)
  end.

Definition key_lt (k l : Z * Z * Z) : Prop :=
  fst (fst k) < fst (fst l)
  \/ (fst (fst k) = fst (fst l)
      /\ (snd (fst k) < snd (fst l)
          \/ (snd (fst k) = snd (fst l) /\ snd k < snd l))).

Definition key_ltb (k l : Z * Z * Z) : bool :=
  match fst (fst k) ?= fst (fst l) with
  | Lt => true
  | Gt => false
  | Eq => match snd (fst k) ?= snd (fst l) with
          | Lt => true
          | Gt => false
          | Eq => match snd k ?= snd l with Lt => true | _ => false end
          end
  end.

Definition is_neg_zero (a : float) : bool :=
  match a with S754_zero true => true | _ => false end.

(** The exponent of a finite float is at least [emin]. *)
Definition exp_ok (a : float) : Prop :=
  match a with
  | S754_finite _ _ e => emin prec emax <= e
  | _ => True
  end.

(** The union of four distances, left to right. *)
Definition min4 (a b c d : float) : float :=
  b32_fminf (b32_fminf (b32_fminf a b) c) d.
End B32Keys.

(** ** Exact arithmetic: the orbit in the plane [z = 0] *)

Section Planar.
Local Open Scope R_scope.

(** The square of the complex number [fst p + i * snd p]. *)
Definition csq (p : R * R) : R * R :=
  (fst p * fst p - snd p * snd p, 2 * fst p * snd p).

(** The map [w -> w^8 + c] on complex numbers, by three squarings. *)
Definition planar_step (c p : R * R) : R * R :=
  (fst (csq (csq (csq p))) + fst c, snd (csq (csq (csq p))) + snd c).

Fixpoint planar_orbit (c : R * R) (k : nat) : R * R :=
  match k with
  | O => c
  | S k' => planar_step c (planar_orbit c k')
  end.

(** The squared norm of a point of the plane. *)
Definition norm2 (p : R * R) : R := fst p * fst p + snd p * snd p.
End Planar.

(** ** Interval enclosures in fixed point *)

Section Enclosure.
Local Open Scope Z_scope.

(** The interval [lo/scale, hi/scale]. *)
Definition scale : Z := 2 ^ 40.

Record itv : Type := mk_itv { lo : Z; hi : Z }.

Definition contains (i : itv) (x : R) : Prop :=
  (IZR (lo i) <= x * IZR scale <= IZR (hi i))%R.

Definition iadd (a b : itv) : itv := mk_itv (lo a + lo b) (hi a + hi b).

Definition isub (a b : itv) : itv := mk_itv (lo a - hi b) (hi a - lo b).

Definition idbl (a : itv) : itv := mk_itv (2 * lo a) (2 * hi a).

(** Product, the lower end rounded down and the upper end rounded up. *)
Definition imul (a b : itv) : itv :=
  mk_itv
    (Z.min (Z.min (lo a * lo b) (lo a * hi b))
           (Z.min (hi a * lo b) (hi a * hi b)) / scale)
    (- (- Z.max (Z.max (lo a * lo b) (lo a * hi b))
                (Z.max (hi a * lo b) (hi a * hi b)) / scale)).

(** The rational [n/d], enclosed. *)
Definition iratio (n : Z) (d : positive) : itv :=
  mk_itv (n * scale / Zpos d) (- (- (n * scale) / Zpos d)).

Definition icsq (p : itv * itv) : itv * itv :=
  (isub (imul (fst p) (fst p)) (imul (snd p) (snd p)),
   idbl (imul (fst p) (snd p))).

Definition istep (c p : itv * itv) : itv * itv :=
  (iadd (fst (icsq (icsq (icsq p)))) (fst c),
   iadd (snd (icsq (icsq (icsq p)))) (snd c)).

Fixpoint iorbit (c : itv * itv) (k : nat) : itv * itv :=
  match k with
  | O => c
  | S k' => istep c (iorbit c k')
  end.

Definition inorm2 (p : itv * itv) : itv :=
  iadd (imul (fst p) (fst p)) (imul (snd p) (snd p)).

(** The enclosure shows a squared norm in (0, 16]: the point is not the
    origin and its norm does not exceed the bailout 4. *)
Definition stays_inside (p : itv * itv) : bool :=
  (0 <? lo (inorm2 p)) && (hi (inorm2 p) <=? 16 * scale).

(** The enclosure shows a squared norm in (0, 1). *)
Definition inside_unit (p : itv * itv) : bool :=
  (0 <? lo (inorm2 p)) && (hi (inorm2 p) <? scale).

(** A pair of intervals encloses a point of the plane. *)
Definition contains2 (i : itv * itv) (p : R * R) : Prop :=
  contains (fst i) (fst p) /\ contains (snd i) (snd p).

(** The first [n] points of the enclosed orbit all stay inside. *)
Fixpoint never_escapes (c : itv * itv) (n : nat) : bool :=
  match n with
  | O => true
  | S n' => never_escapes c n' && stays_inside (iorbit c n')
  end.

(** The constant of the orbit of the query point (0,-2,0): (0, -2/2.3). *)
Definition floor_seed : itv * itv := (mk_itv 0 0, iratio (-20) 23).
End Enclosure.

(** ** Further vocabulary for the properties *)

Section Vocabulary.
Local Open Scope fl_scope.

(** Two binary32 operands are the two zeros of opposite sign. *)
Definition distinct_zeros (a b : B32.float) : bool :=
  match a, b with
  | S754_zero sa, S754_zero sb => xorb sa sb
  | _, _ => false
  end.

(** A math library on binary32 that returns its (first) argument: it
    propagates NaN, which is all the properties below ask of one. *)
Definition passthrough_libm : Libm B32.float := {|
  asinf := fun a => a;
  atan2f := fun a _ => a;
  powf := fun a _ => a;
  cosf := fun a => a;
  sinf := fun a => a;
  logf := fun a => a
|}.

(** A binary32 value below zero: a negative number or minus infinity. *)
Definition is_negative (a : B32.float) : bool :=
  match a with
  | S754_finite true _ _ | S754_infinity true => true
  | _ => false
  end.

(** A binary32 value above zero whose exponent, when it is finite, is at
    least [k]. *)
Definition positive_above (k : Z) (a : B32.float) : Prop :=
  match a with
  | S754_finite false _ e => (k <= e)%Z
  | S754_infinity false => True
  | _ => False
  end.

(** A binary32 value that is NaN or above zero: what the running derivative
    of the estimator can be. *)
Definition positive_or_nan (a : B32.float) : bool :=
  match a with
  | S754_nan | S754_infinity false | S754_finite false _ _ => true
  | _ => false
  end.

(** A binary32 value of magnitude at least [2^(23+k)]: an infinity, or a
    finite float with a full mantissa and an exponent of [k] at least. *)
Definition large (k : Z) (a : B32.float) : Prop :=
  match a with
  | S754_finite _ m e => (2 ^ 23 <= Zpos m)%Z /\ (k <= e)%Z
  | S754_infinity _ => True
  | _ => False
  end.

(** The same, above zero. *)
Definition large_positive (k : Z) (a : B32.float) : Prop :=
  match a with
  | S754_finite false m e => (2 ^ 23 <= Zpos m)%Z /\ (k <= e)%Z
  | S754_infinity false => True
  | _ => False
  end.

(** A binary32 value that is +0, above zero or plus infinity: what a square
    or a sum of squares can be. *)
Definition not_below_zero (a : B32.float) : Prop :=
  match a with
  | S754_zero false | S754_finite false _ _ | S754_infinity false => True
  | _ => False
  end.

(** A coordinate of magnitude 32 at least. *)
Definition far_coordinate (c : B32.float) : bool :=
  SFleb (flit (FloatOps := B32.ops) 32 1) (SFabs c).

(** No coordinate of the point is NaN. *)
Definition no_nan (p : float3 B32.float) : bool :=
  negb (B32.is_nan (fx p) || B32.is_nan (fy p) || B32.is_nan (fz p)).

(** A far query point: binary32 coordinates, none of them NaN, one of them
    of magnitude 32 at least (so that the norm is 32 at least, well beyond
    the scaled bailout radius 2.3 * 4). *)
Definition far_point (p : float3 B32.float) : bool :=
  B32.valid3 p && no_nan p
  && (far_coordinate (fx p) || far_coordinate (fy p) || far_coordinate (fz p)).

(** The sign bit of a binary32 value; a NaN counts as unsigned. *)
Definition sign_set (a : B32.float) : bool :=
  match a with
  | S754_zero s | S754_infinity s | S754_finite s _ _ => s
  | S754_nan => false
  end.

(** The real number a finite binary32 value stands for, [(-1)^s * m * 2^e];
    zero for the others. *)
Definition to_R (a : B32.float) : R :=
  match a with
  | S754_finite s m e =>
      (IZR (cond_Zopp s (Zpos m))
       * (if (0 <=? e)%Z then IZR (2 ^ e) else / IZR (2 ^ (- e))))%R
  | _ => 0%R
  end.

(** The norm of a binary32 point, as a real number. *)
Definition norm_R (p : float3 B32.float) : R :=
  sqrt (to_R (fx p) * to_R (fx p) + to_R (fy p) * to_R (fy p)
        + to_R (fz p) * to_R (fz p))%R.

(** A binary32 zero, of either sign. *)
Definition is_zero (a : B32.float) : bool :=
  match a with S754_zero _ => true | _ => false end.

(** [b] mirrors [a]: it is the opposite of [a], or both are zeros. *)
Definition mirrors (a b : B32.float) : Prop :=
  b = SFopp a \/ (is_zero a = true /\ is_zero b = true).

(** The point mirrored in the plane [z = 0]. *)
Definition mirror_z {F : Type} {ops : FloatOps F} (p : float3 F) : float3 F :=
  make_float3 (fx p) (fy p) (- fz p).

(** Two iterates that mirror each other in the plane [z = 0], up to the sign
    of a zero depth. *)
Definition mirror_state (z z' : float3 B32.float) : Prop :=
  fx z' = fx z /\ fy z' = fy z /\ mirrors (fz z) (fz z').

(** The parities of the real functions, asked of a binary32 math library:
    [asinf] and [sinf] are odd and map zeros to zeros, [cosf] is even. *)
Class LibmParity (lm : Libm B32.float) : Prop := {
  asinf_odd : forall a, asinf (SFopp a) = SFopp (asinf a);
  asinf_zero : forall s, is_zero (asinf (S754_zero s)) = true;
  sinf_odd : forall a, sinf (SFopp a) = SFopp (sinf a);
  sinf_zero : forall s, is_zero (sinf (S754_zero s)) = true;
  cosf_even : forall a, cosf (SFopp a) = cosf a
}.

(** A math library on binary32 with these parities: the identity for the odd
    functions, the absolute value for the cosine. *)
Definition symmetric_libm : Libm B32.float := {|
  asinf := fun a => a;
  atan2f := fun a _ => a;
  powf := fun a _ => a;
  cosf := SFabs;
  sinf := fun a => a;
  logf := fun a => a
|}.

(** The distance of two points of real space. *)
Definition dist3 (p q : float3 R) : R :=
  length (ops := RealModel.ops) (vsub (ops := RealModel.ops) p q).

(** A scalar field that changes by no more than the distance moved: a ray
    may advance by its value without crossing its zero set. *)
Definition lipschitz1 (f : float3 R -> R) : Prop :=
  forall p q : float3 R, (Rabs (f p - f q) <= dist3 p q)%R.
End Vocabulary.

(** * Properties *)

(** ** The fractal estimator *)

Section EscapeTimeFacts.
Context {F : Type} {ops : FloatOps F} {lm : Libm F}.
Local Open Scope fl_scope.

Lemma mandelbulb_body_step (pos : float3 F) (power : F) (s : float3 F * F) :
  mandelbulb_body pos power (fst s) (length (fst s)) (snd s)
  = spherical_step pos power s.
Proof. reflexivity. Qed.

(** The loop entered at step [j] with [m] iterations left stops at some step
    [k] between [j] and [j + m]: no step before [k] escaped, step [k] escaped
    unless the iterations ran out, and the loop returns the derivative after
    [k] steps with the last radius measured. *)
Lemma mandelbulb_loop_orbit (pos : float3 F) (bail power : F) (m : nat) :
  forall (j : nat) (r0 : F),
  exists k : nat,
    (j <= k <= j + m)%nat
    /\ (forall i, (j <= i < k)%nat -> escaped pos bail power i = false)
    /\ ((k < j + m)%nat -> escaped pos bail power k = true)
    /\ mandelbulb_loop m pos bail power
         (fst (orbit pos power j)) (snd (orbit pos power j)) r0
       = (snd (orbit pos power k),
          if (k <? j + m)%nat then radius_at pos power k
          else if (k =? j)%nat then r0
          else radius_at pos power (Nat.pred k)).
Proof.
  induction m as [|m IH]; intros j r0.
  - exists j. repeat split; try lia.
    simpl. rewrite Nat.add_0_r, Nat.ltb_irrefl, Nat.eqb_refl. reflexivity.
  - cbn [mandelbulb_loop].
    destruct (length (fst (orbit pos power j)) >? bail) eqn:E.
    + exists j. repeat split; try lia.
      * intros _. exact E.
      * replace (j <? j + S m)%nat with true
          by (symmetry; apply Nat.ltb_lt; lia).
        reflexivity.
    + rewrite mandelbulb_body_step.
      change (spherical_step pos power (orbit pos power j))
        with (orbit pos power (S j)).
      destruct (IH (S j) (length (fst (orbit pos power j))))
        as (k & Hk & Hbefore & Hat & Hres).
      exists k. repeat split; try lia.
      * intros i Hi. destruct (Nat.eq_dec i j) as [->|Hne].
        -- exact E.
        -- apply Hbefore. lia.
      * intros Hlt. apply Hat. lia.
      * destruct (orbit pos power (S j)) as [z' dr'] eqn:EO.
        cbn [fst snd] in Hres. rewrite Hres.
        replace (S j + m)%nat with (j + S m)%nat by lia.
        destruct (k <? j + S m)%nat eqn:Ek; [reflexivity|].
        replace (k =? j)%nat with false by (symmetry; apply Nat.eqb_neq; lia).
        destruct (k =? S j)%nat eqn:Ek'; [|reflexivity].
        apply Nat.eqb_eq in Ek'. subst k. reflexivity.
Qed.

(** C1. [mandelbulb] is the escape-time algorithm: from [z = pos], [dr = 1],
    [r = 0] it runs [k] full steps of the spherical map, for some [k] of at
    most [iterations]; none of the steps before [k] had a radius exceeding
    [bail]; it stopped at step [k] because that radius exceeds [bail], unless
    the iterations ran out; and it returns [0.5 * ln(r) * r / dr] for the
    derivative after [k] steps and the last radius measured. *)
Theorem mandelbulb_escape_time (pos : float3 F) (iterations : Z) (bail power : F) :
  exists k : nat,
    (k <= Z.to_nat iterations)%nat
    /\ (forall i, (i < k)%nat -> escaped pos bail power i = false)
    /\ ((k < Z.to_nat iterations)%nat -> escaped pos bail power k = true)
    /\ mandelbulb pos iterations bail power
       = estimate (last_radius pos power (Z.to_nat iterations) k)
                  (snd (orbit pos power k)).
Proof.
  destruct (mandelbulb_loop_orbit pos bail power (Z.to_nat iterations) 0 (flit 0 1))
    as (k & Hk & Hbefore & Hat & Hres).
  exists k. repeat split; try lia.
  - intros i Hi. apply Hbefore. lia.
  - exact Hat.
  - unfold mandelbulb. cbn [orbit fst snd] in Hres. rewrite Hres.
    unfold estimate, last_radius. cbn [Nat.add].
    destruct (k <? Z.to_nat iterations)%nat eqn:Ek; [reflexivity|].
    apply Nat.ltb_ge in Ek.
    assert (k = Z.to_nat iterations) by lia. subst k.
    destruct (Z.to_nat iterations) as [|n]; reflexivity.
Qed.
End EscapeTimeFacts.

(** ** Scene composers and colour samplers *)

Section SceneFacts.
Context {F : Type} {ops : FloatOps F} {lm : Libm F}.
Local Open Scope fl_scope.

(** The sphere sub-distance of the source is the lattice of the
    specification, for each of the four sign variants. *)
Lemma sdfSphere_lattice (nx nz : bool) (pos : float3 F) :
  sdfSphere
    (make_float3
       ((if nx then - fmodf (fx pos) (flit 2 1) else fmodf (fx pos) (flit 2 1))
        - flit 1 1)
       (fy pos + flit 15 10)
       ((if nz then - fmodf (fz pos) (flit 2 1) else fmodf (fz pos) (flit 2 1))
        - flit 1 1))
    (flit 5 10)
  = lattice nx nz pos.
Proof. destruct nx, nz; reflexivity. Qed.

Lemma sphereScene_union (pos : float3 F) :
  sphereScene pos = fminf (lattice_spheres pos) (ground_plane pos).
Proof.
  unfold sphereScene, lattice_spheres, ground_plane, sdfUnion, sdfPlane.
  rewrite <- !sdfSphere_lattice. reflexivity.
Qed.

Lemma sphereColor_select (pos : float3 F) :
  sphereColor pos
  = if ground_plane pos <? lattice_spheres pos
    then make_float3 (flit 1 1) (flit 3 10) (flit 1 10)
    else make_float3 (flit 85 100) (flit 85 100) (flit 85 100).
Proof.
  unfold sphereColor, lattice_spheres, ground_plane, sdfUnion, sdfPlane.
  rewrite <- !sdfSphere_lattice. reflexivity.
Qed.

Lemma mandelbulbScene_union (pos : float3 F) :
  mandelbulbScene pos = fminf (fractal_term pos) (ground_plane pos).
Proof. reflexivity. Qed.

Lemma mandelbulbColor_select (pos : float3 F) :
  mandelbulbColor pos
  = if ground_plane pos <? fractal_term pos
    then make_float3 (flit 85 100) (flit 85 100) (flit 85 100)
    else make_float3 (flit 85 100) (flit 1 1) (flit 0 1).
Proof. reflexivity. Qed.

(** C3. Each colour sampler compares the very sub-distances its scene
    composer unions, and picks the plane material exactly when the plane
    sub-distance is strictly the smaller; so where the plane is strictly
    nearer the scene distance is the plane's and the colour the plane's, and
    where the fractal (or the spheres) is strictly nearer the scene distance
    and the colour are the fractal's (the spheres'). *)
Theorem color_matches_nearest_surface {laws : FloatLaws F} (p : float3 F) :
  (mandelbulbScene p = fminf (fractal_term p) (ground_plane p)
   /\ mandelbulbColor p
      = (if ground_plane p <? fractal_term p
         then make_float3 (flit 85 100) (flit 85 100) (flit 85 100)
         else make_float3 (flit 85 100) (flit 1 1) (flit 0 1))
   /\ ((ground_plane p <? fractal_term p) = true ->
       mandelbulbScene p = ground_plane p
       /\ mandelbulbColor p
          = make_float3 (flit 85 100) (flit 85 100) (flit 85 100))
   /\ ((fractal_term p <? ground_plane p) = true ->
       mandelbulbScene p = fractal_term p
       /\ mandelbulbColor p = make_float3 (flit 85 100) (flit 1 1) (flit 0 1)))
  /\
  (sphereScene p = fminf (lattice_spheres p) (ground_plane p)
   /\ sphereColor p
      = (if ground_plane p <? lattice_spheres p
         then make_float3 (flit 1 1) (flit 3 10) (flit 1 10)
         else make_float3 (flit 85 100) (flit 85 100) (flit 85 100))
   /\ ((ground_plane p <? lattice_spheres p) = true ->
       sphereScene p = ground_plane p
       /\ sphereColor p = make_float3 (flit 1 1) (flit 3 10) (flit 1 10))
   /\ ((lattice_spheres p <? ground_plane p) = true ->
       sphereScene p = lattice_spheres p
       /\ sphereColor p
          = make_float3 (flit 85 100) (flit 85 100) (flit 85 100))).
Proof.
  split; (split; [|split; [|split]]).
  - apply mandelbulbScene_union.
  - apply mandelbulbColor_select.
  - intros H. rewrite mandelbulbScene_union, mandelbulbColor_select, H.
    split; [apply fminf_lt_r; exact H | reflexivity].
  - intros H. rewrite mandelbulbScene_union, mandelbulbColor_select.
    rewrite (fltb_asym _ _ H).
    split; [apply fminf_lt_l; exact H | reflexivity].
  - apply sphereScene_union.
  - apply sphereColor_select.
  - intros H. rewrite sphereScene_union, sphereColor_select, H.
    split; [apply fminf_lt_r; exact H | reflexivity].
  - intros H. rewrite sphereScene_union, sphereColor_select.
    rewrite (fltb_asym _ _ H).
    split; [apply fminf_lt_l; exact H | reflexivity].
Qed.
End SceneFacts.

(** ** Binary32: order and combinators *)

Section B32Order.
Import B32.

Lemma SFcompare_antisym (a b : float) (c : comparison) :
  SFcompare a b = Some c -> SFcompare b a = Some (CompOpp c).
Proof.
  destruct a as [sa|sa| |sa ma ea], b as [sb|sb| |sb mb eb]; simpl;
    try discriminate; intros H; injection H as <-;
    try (destruct sa; reflexivity);
    try (destruct sb; reflexivity);
    try (destruct sa, sb; reflexivity);
    try reflexivity.
  destruct sa, sb; try reflexivity;
    rewrite (Z.compare_antisym ea eb);
    destruct (ea ?= eb)%Z; simpl; try reflexivity;
    rewrite (Pos.compare_cont_antisym ma mb Eq); simpl;
    try rewrite CompOpp_involutive; reflexivity.
Qed.

Lemma SFltb_asym (a b : float) : SFltb a b = true -> SFltb b a = false.
Proof.
  unfold SFltb. destruct (SFcompare a b) as [[| |]|] eqn:E; try discriminate.
  intros _. rewrite (SFcompare_antisym _ _ E). reflexivity.
Qed.

Lemma SFltb_not_nan (a b : float) :
  SFltb a b = true -> is_nan a = false /\ is_nan b = false.
Proof. destruct a, b; simpl; try discriminate; auto. Qed.

Lemma SFcompare_not_nan (a b : float) :
  is_nan a = false -> is_nan b = false -> exists c, SFcompare a b = Some c.
Proof.
  destruct a, b; simpl; try discriminate; intros _ _; eexists; reflexivity.
Qed.

(** Two numbers are always comparable. *)
Lemma SFltb_false_SFleb (a b : float) :
  is_nan a = false -> is_nan b = false -> SFltb a b = false -> SFleb b a = true.
Proof.
  intros Ha Hb. destruct (SFcompare_not_nan a b Ha Hb) as [c E].
  unfold SFltb, SFleb. rewrite E, (SFcompare_antisym _ _ E).
  destruct c; simpl; congruence.
Qed.

Lemma SFltb_SFleb (a b : float) : SFltb a b = true -> SFleb a b = true.
Proof.
  unfold SFltb, SFleb. destruct (SFcompare a b) as [[| |]|]; congruence.
Qed.

Lemma SFleb_refl (a : float) : is_nan a = false -> SFleb a a = true.
Proof.
  destruct a as [s|s| |s m e]; simpl; try discriminate; intros _;
    unfold SFleb; simpl; try (destruct s; reflexivity).
  destruct s; rewrite Z.compare_refl, Pos.compare_cont_refl; reflexivity.
Qed.

Lemma b32_fminf_lt (a b : float) :
  is_nan a = false -> is_nan b = false ->
  b32_fminf a b = if SFltb a b then a else b.
Proof. destruct a, b; simpl; try discriminate; reflexivity. Qed.

Lemma b32_fmaxf_lt (a b : float) :
  is_nan a = false -> is_nan b = false ->
  b32_fmaxf a b = if SFltb b a then a else b.
Proof. destruct a, b; simpl; try discriminate; reflexivity. Qed.

Lemma is_finite_not_nan (a : float) : is_finite a = true -> is_nan a = false.
Proof. destruct a; simpl; congruence. Qed.

Lemma is_finite_SFopp (a : float) : is_finite (SFopp a) = is_finite a.
Proof. destruct a; reflexivity. Qed.

(** [fminf] is the greatest lower bound of two numbers, one of the two. *)
Lemma b32_fminf_glb (a b : float) :
  is_nan a = false -> is_nan b = false ->
  (b32_fminf a b = a \/ b32_fminf a b = b)
  /\ SFleb (b32_fminf a b) a = true /\ SFleb (b32_fminf a b) b = true.
Proof.
  intros Ha Hb. rewrite (b32_fminf_lt _ _ Ha Hb).
  destruct (SFltb a b) eqn:E.
  - split; [left; reflexivity|]. split; [apply SFleb_refl|apply SFltb_SFleb]; assumption.
  - split; [right; reflexivity|].
    split; [apply SFltb_false_SFleb|apply SFleb_refl]; assumption.
Qed.

(** [fmaxf] is the least upper bound of two numbers, one of the two. *)
Lemma b32_fmaxf_lub (a b : float) :
  is_nan a = false -> is_nan b = false ->
  (b32_fmaxf a b = a \/ b32_fmaxf a b = b)
  /\ SFleb a (b32_fmaxf a b) = true /\ SFleb b (b32_fmaxf a b) = true.
Proof.
  intros Ha Hb. rewrite (b32_fmaxf_lt _ _ Ha Hb).
  destruct (SFltb b a) eqn:E.
  - split; [left; reflexivity|]. split; [apply SFleb_refl|apply SFltb_SFleb]; assumption.
  - split; [right; reflexivity|].
    split; [apply SFltb_false_SFleb|apply SFleb_refl]; assumption.
Qed.

#[export] Instance b32_laws : FloatLaws float.
Proof.
  split.
  - exact SFltb_asym.
  - intros a b H. destruct (SFltb_not_nan _ _ H) as [Ha Hb].
    simpl. rewrite (b32_fminf_lt _ _ Ha Hb).
    change (fltb a b) with (SFltb a b) in H. rewrite H. reflexivity.
  - intros a b H. destruct (SFltb_not_nan _ _ H) as [Hb Ha].
    simpl. rewrite (b32_fminf_lt _ _ Ha Hb).
    change (fltb b a) with (SFltb b a) in H. rewrite (SFltb_asym _ _ H).
    reflexivity.
Qed.

(** C4. On finite floats the three combinators are exactly [min(a,b)],
    [max(a,b)] and [max(-a,b)]: each returns one of its two candidates, the
    union is below both, the intersection above both, the difference above
    [-a] and [b]; and each result is again a finite float, so no error
    arises. *)
Theorem combinators_min_max (a b : float) :
  is_finite a = true -> is_finite b = true ->
  (sdfUnion a b = fminf a b
   /\ (sdfUnion a b = a \/ sdfUnion a b = b)
   /\ SFleb (sdfUnion a b) a = true /\ SFleb (sdfUnion a b) b = true
   /\ is_finite (sdfUnion a b) = true)
  /\
  (sdfIntersection a b = fmaxf a b
   /\ (sdfIntersection a b = a \/ sdfIntersection a b = b)
   /\ SFleb a (sdfIntersection a b) = true
   /\ SFleb b (sdfIntersection a b) = true
   /\ is_finite (sdfIntersection a b) = true)
  /\
  (sdfDifference a b = fmaxf (fneg a) b
   /\ (sdfDifference a b = fneg a \/ sdfDifference a b = b)
   /\ SFleb (fneg a) (sdfDifference a b) = true
   /\ SFleb b (sdfDifference a b) = true
   /\ is_finite (sdfDifference a b) = true).
Proof.
  intros Fa Fb.
  assert (Na := is_finite_not_nan _ Fa).
  assert (Nb := is_finite_not_nan _ Fb).
  assert (Fo : is_finite (SFopp a) = true) by (rewrite is_finite_SFopp; exact Fa).
  assert (No := is_finite_not_nan _ Fo).
  split; [|split].
  - destruct (b32_fminf_glb a b Na Nb) as (Hor & Hl & Hr).
    unfold sdfUnion. simpl fminf.
    repeat split; try assumption.
    destruct Hor as [-> | ->]; assumption.
  - destruct (b32_fmaxf_lub a b Na Nb) as (Hor & Hl & Hr).
    unfold sdfIntersection. simpl fmaxf.
    repeat split; try assumption.
    destruct Hor as [-> | ->]; assumption.
  - destruct (b32_fmaxf_lub (SFopp a) b No Nb) as (Hor & Hl & Hr).
    unfold sdfDifference. simpl fmaxf. simpl fneg.
    repeat split; try assumption.
    destruct Hor as [-> | ->]; assumption.
Qed.

(** Witness of C4 at [a = 1], [b = 2]. *)
Lemma combinators_min_max_witness :
  (sdfUnion (flit 1 1) (flit 2 1) = fminf (flit 1 1) (flit 2 1)
   /\ (sdfUnion (flit 1 1) (flit 2 1) = flit 1 1
       \/ sdfUnion (flit 1 1) (flit 2 1) = flit 2 1)
   /\ SFleb (sdfUnion (flit 1 1) (flit 2 1)) (flit 1 1) = true
   /\ SFleb (sdfUnion (flit 1 1) (flit 2 1)) (flit 2 1) = true
   /\ is_finite (sdfUnion (flit 1 1) (flit 2 1)) = true)
  /\
  (sdfIntersection (flit 1 1) (flit 2 1) = fmaxf (flit 1 1) (flit 2 1)
   /\ (sdfIntersection (flit 1 1) (flit 2 1) = flit 1 1
       \/ sdfIntersection (flit 1 1) (flit 2 1) = flit 2 1)
   /\ SFleb (flit 1 1) (sdfIntersection (flit 1 1) (flit 2 1)) = true
   /\ SFleb (flit 2 1) (sdfIntersection (flit 1 1) (flit 2 1)) = true
   /\ is_finite (sdfIntersection (flit 1 1) (flit 2 1)) = true)
  /\
  (sdfDifference (flit 1 1) (flit 2 1) = fmaxf (fneg (flit 1 1)) (flit 2 1)
   /\ (sdfDifference (flit 1 1) (flit 2 1) = fneg (flit 1 1)
       \/ sdfDifference (flit 1 1) (flit 2 1) = flit 2 1)
   /\ SFleb (fneg (flit 1 1)) (sdfDifference (flit 1 1) (flit 2 1)) = true
   /\ SFleb (flit 2 1) (sdfDifference (flit 1 1) (flit 2 1)) = true
   /\ is_finite (sdfDifference (flit 1 1) (flit 2 1)) = true).
Proof.
  apply (combinators_min_max (flit 1 1) (flit 2 1)); vm_compute; reflexivity.
Defined.
End B32Order.

(** ** Binary32: values at the specification's test points *)

Section B32Values.
Import B32.
Local Open Scope fl_scope.

(** C5, counterexample. The difference of the distances 1 and 2 is
    [max(-1, 2) = 2], not -1. *)
Lemma sdfDifference_1_2_not_minus_1 :
  sdfDifference (flit 1 1 : float) (flit 2 1) <> - flit 1 1.
Proof. vm_compute. discriminate. Qed.

(** C5, amended. [sdfDifference] is not commutative: at [a = 1], [b = 2] it
    gives [max(-1, 2) = 2] one way and [max(-2, 1) = 1] the other. *)
Theorem sdfDifference_not_commutative :
  sdfDifference (flit 1 1 : float) (flit 2 1) = flit 2 1
  /\ sdfDifference (flit 2 1 : float) (flit 1 1) = flit 1 1
  /\ sdfDifference (flit 1 1 : float) (flit 2 1)
     <> sdfDifference (flit 2 1 : float) (flit 1 1)
  /\ exists a b : float, sdfDifference a b <> sdfDifference b a.
Proof.
  assert (H12 : sdfDifference (flit 1 1 : float) (flit 2 1) = flit 2 1)
    by (vm_compute; reflexivity).
  assert (H21 : sdfDifference (flit 2 1 : float) (flit 1 1) = flit 1 1)
    by (vm_compute; reflexivity).
  assert (Hne : sdfDifference (flit 1 1 : float) (flit 2 1)
                <> sdfDifference (flit 2 1 : float) (flit 1 1))
    by (rewrite H12, H21; vm_compute; discriminate).
  repeat split; try assumption.
  exists (flit 1 1), (flit 2 1). exact Hne.
Qed.

(** C6. The primitives are the closed forms [|pos| - radius], the norm being
    the square root of the sum of the squared components, and [dot(pos, n)];
    on binary32 the four test values come out exactly. *)
Theorem primitives_closed_form :
  (forall (F : Type) (ops : FloatOps F) (pos : float3 F) (radius : F),
      sdfSphere pos radius
      = sqrtf (fx pos * fx pos + fy pos * fy pos + fz pos * fz pos) - radius)
  /\ (forall (F : Type) (ops : FloatOps F) (pos n : float3 F),
         sdfPlane pos n = fx pos * fx n + fy pos * fy n + fz pos * fz n)
  /\ sdfSphere (make_float3 (flit 3 1) (flit 4 1) (flit 0 1) : float3 float)
               (flit 5 1) = flit 0 1
  /\ sdfSphere (make_float3 (flit 0 1) (flit 0 1) (flit 0 1) : float3 float)
               (flit 2 1) = - flit 2 1
  /\ sdfPlane (make_float3 (flit 0 1) (flit 1 1) (flit 0 1) : float3 float)
              (make_float3 (flit 0 1) (flit 1 1) (flit 0 1)) = flit 1 1
  /\ sdfPlane (make_float3 (flit 0 1) (- flit 1 1) (flit 0 1) : float3 float)
              (make_float3 (flit 0 1) (flit 1 1) (flit 0 1)) = - flit 1 1.
Proof.
  split; [|split].
  - intros F ops pos radius. unfold sdfSphere, length, dot. reflexivity.
  - intros F ops pos n. unfold sdfPlane, dot. reflexivity.
  - repeat split; vm_compute; reflexivity.
Qed.

(** C8. At the lattice sphere centre (1,-1.5,1) the sphere scene returns
    minus the radius, -0.5; half a unit above, on the sphere, it returns 0. *)
Theorem sphereScene_lattice_centre :
  sphereScene (make_float3 (flit 1 1) (- flit 15 10) (flit 1 1) : float3 float)
  = - flit 5 10
  /\ sphereScene (make_float3 (flit 1 1) (- flit 15 10 + flit 5 10) (flit 1 1)
                  : float3 float)
     = flit 0 1.
Proof.
  split.
  - unfold sphereScene, sdfUnion, sdfSphere, sdfPlane. vm_compute. reflexivity.
  - unfold sphereScene, sdfUnion, sdfSphere, sdfPlane. vm_compute. reflexivity.
Qed.
End B32Values.

(** ** Real numbers: order laws *)

Section RealOrder.
Import RealModel.
Local Open Scope R_scope.

Lemma Rltb_true (a b : R) : Rltb a b = true <-> a < b.
Proof. unfold Rltb. destruct (Rlt_dec a b); split; intros; congruence || assumption. Qed.

Lemma Rltb_false (a b : R) : Rltb a b = false <-> b <= a.
Proof.
  unfold Rltb. destruct (Rlt_dec a b); split; intros; try congruence; lra.
Qed.

#[export] Instance R_laws : FloatLaws R.
Proof.
  split; simpl.
  - intros a b H. apply Rltb_true in H. apply Rltb_false. lra.
  - intros a b H. apply Rltb_true in H. apply Rmin_left. lra.
  - intros a b H. apply Rltb_true in H. apply Rmin_right. lra.
Qed.

Lemma flit_R (n : Z) (d : positive) : flit n d = IZR n / IZR (Zpos d).
Proof. reflexivity. Qed.

(** Witness of C3 on the real instance at the origin. *)
Lemma color_matches_nearest_surface_witness :
  let p : float3 R := make_float3 0 0 0 in
  (mandelbulbScene p = fminf (fractal_term p) (ground_plane p)
   /\ mandelbulbColor p
      = (if fltb (ground_plane p) (fractal_term p)
         then make_float3 (flit 85 100) (flit 85 100) (flit 85 100)
         else make_float3 (flit 85 100) (flit 1 1) (flit 0 1))
   /\ (fltb (ground_plane p) (fractal_term p) = true ->
       mandelbulbScene p = ground_plane p
       /\ mandelbulbColor p
          = make_float3 (flit 85 100) (flit 85 100) (flit 85 100))
   /\ (fltb (fractal_term p) (ground_plane p) = true ->
       mandelbulbScene p = fractal_term p
       /\ mandelbulbColor p = make_float3 (flit 85 100) (flit 1 1) (flit 0 1)))
  /\
  (sphereScene p = fminf (lattice_spheres p) (ground_plane p)
   /\ sphereColor p
      = (if fltb (ground_plane p) (lattice_spheres p)
         then make_float3 (flit 1 1) (flit 3 10) (flit 1 10)
         else make_float3 (flit 85 100) (flit 85 100) (flit 85 100))
   /\ (fltb (ground_plane p) (lattice_spheres p) = true ->
       sphereScene p = ground_plane p
       /\ sphereColor p = make_float3 (flit 1 1) (flit 3 10) (flit 1 10))
   /\ (fltb (lattice_spheres p) (ground_plane p) = true ->
       sphereScene p = lattice_spheres p
       /\ sphereColor p
          = make_float3 (flit 85 100) (flit 85 100) (flit 85 100))).
Proof.
  exact (color_matches_nearest_surface (laws := R_laws) (make_float3 0 0 0)).
Defined.
End RealOrder.

(** ** Far from the fractal *)

Section EscapeAtOnce.
Context {F : Type} {ops : FloatOps F} {lm : Libm F}.
Local Open Scope fl_scope.

(** When the norm of the query point already exceeds the bailout, the loop
    leaves on its first test and the estimate is [0.5 * ln(r) * r / 1]. *)
Lemma mandelbulb_escapes_at_once (pos : float3 F) (iterations : Z) (bail power : F) :
  (0 < iterations)%Z ->
  (length pos >? bail) = true ->
  mandelbulb pos iterations bail power = estimate (length pos) (flit 1 1).
Proof.
  intros Hit Hesc. unfold mandelbulb, estimate.
  destruct (Z.to_nat iterations) as [|n] eqn:En; [lia|].
  cbn [mandelbulb_loop]. rewrite Hesc. reflexivity.
Qed.
End EscapeAtOnce.

Section FarField.
Import RealModel.
Local Open Scope R_scope.

Lemma length_R (p : float3 R) :
  length p = sqrt (fx p * fx p + fy p * fy p + fz p * fz p).
Proof. reflexivity. Qed.

Lemma length_R_nonneg (p : float3 R) : 0 <= length p.
Proof. rewrite length_R. apply sqrt_pos. Qed.

(** Uniform scaling scales the norm. *)
Lemma length_vdivs_R (p : float3 R) (c : R) :
  0 < c -> length (vdivs p c) = length p / c.
Proof.
  intros Hc. rewrite !length_R. unfold vdivs. cbn [fx fy fz fdiv ops].
  replace (fx p / c * (fx p / c) + fy p / c * (fy p / c) + fz p / c * (fz p / c))
    with ((fx p * fx p + fy p * fy p + fz p * fz p) / (c * c))
    by (field; lra).
  rewrite sqrt_div_alt by nra.
  rewrite sqrt_square by lra. reflexivity.
Qed.

(** The ground floor is the plane of height -2: the distance is [y + 2]. *)
Lemma ground_plane_R (p : float3 R) : ground_plane p = fy p + 2.
Proof.
  unfold ground_plane, dot, vsub. cbn [fx fy fz fadd fsub fmul fneg flit ops].
  field.
Qed.

(** The fractal term of a point beyond the scaled bailout radius. *)
Lemma fractal_term_far (p : float3 R) :
  23 / 10 * 4 < length p ->
  fractal_term p
  = 23 / 10 * (1 / 2 * ln (length p / (23 / 10)) * (length p / (23 / 10))).
Proof.
  intros Hfar. unfold fractal_term.
  rewrite mandelbulb_escapes_at_once.
  - unfold estimate. rewrite length_vdivs_R by (rewrite flit_R; lra).
    cbn [fmul fdiv logf flit ops libm]. field.
  - lia.
  - rewrite length_vdivs_R by (rewrite flit_R; lra).
    cbn [fltb fdiv flit ops]. apply Rltb_true. lra.
Qed.

Lemma xlnx_increasing (r s : R) : 1 < r -> r < s -> 0 < ln r * r < ln s * s.
Proof.
  intros H1 Hrs.
  assert (0 < ln r) by (rewrite <- ln_1; apply ln_increasing; lra).
  assert (ln r < ln s) by (apply ln_increasing; lra).
  split; nra.
Qed.

(** In exact arithmetic, beyond the scaled bailout radius the fractal term
    is [2.3 * 0.5 * ln(|pos|/2.3) * (|pos|/2.3)], positive and strictly
    increasing with [|pos|]. *)
Lemma fractal_term_far_increasing (p q : float3 R) :
  23 / 10 * 4 < length p ->
  length p < length q ->
  fractal_term p
  = 23 / 10 * (1 / 2 * ln (length p / (23 / 10)) * (length p / (23 / 10)))
  /\ 0 < fractal_term p
  /\ fractal_term p < fractal_term q.
Proof.
  intros Hp Hpq.
  rewrite (fractal_term_far p Hp), (fractal_term_far q) by lra.
  assert (Hr : 1 < length p / (23 / 10))
    by (apply Rmult_lt_reg_r with (23 / 10); [lra|]; field_simplify; lra).
  assert (Hrs : length p / (23 / 10) < length q / (23 / 10))
    by (apply Rmult_lt_compat_r; lra).
  destruct (xlnx_increasing Hr Hrs) as [Hpos Hlt].
  split; [reflexivity|]. split; lra.
Qed.

Lemma length_on_x_axis (a : R) : 0 <= a -> length (make_float3 a 0 0 : float3 R) = a.
Proof.
  intros Ha. rewrite length_R. cbn [fx fy fz].
  replace (a * a + 0 * 0 + 0 * 0) with (a * a) by ring.
  apply sqrt_square. exact Ha.
Qed.
End FarField.

Section FarFloor.
Import B32.
Local Open Scope fl_scope.

(** The ground-plane distance of binary32 points of height -2 with finite
    abscissa and depth is +0. *)
Lemma ground_plane_floor (a c : float) :
  is_finite a = true -> is_finite c = true ->
  ground_plane (make_float3 a (- flit 2 1) c) = S754_zero false.
Proof.
  destruct a as [sa|sa| |sa ma ea]; try discriminate;
    destruct c as [sc|sc| |sc mc ec]; try discriminate; intros _ _;
    unfold ground_plane, dot, vsub; cbn [fx fy fz];
    destruct sa, sc; vm_compute; reflexivity.
Qed.

(** The union of any distance with +0 is never positive. *)
Lemma fminf_zero_not_positive (t : float) :
  SFltb (S754_zero false) (b32_fminf t (S754_zero false)) = false.
Proof.
  destruct t as [s|s| |s m e]; try reflexivity; destruct s; reflexivity.
Qed.

(** C9, counterexample. The point (100,-2,0) lies far outside the scaled
    bailout radius, yet whatever the math library computes the scene distance
    there is not positive: the point is on the floor. *)
Lemma far_point_on_floor_not_positive :
  ~ exists lm : Libm float,
      (mandelbulbScene (make_float3 (flit 100 1) (- flit 2 1) (flit 0 1))
       >? flit 0 1) = true.
Proof.
  intros [lm H]. rewrite mandelbulbScene_union in H.
  rewrite (ground_plane_floor (flit 100 1) (flit 0 1)) in H
    by (vm_compute; reflexivity).
  change (flit 0 1 : float) with (S754_zero false) in H.
  cbn [fltb fminf ops] in H.
  rewrite fminf_zero_not_positive in H. discriminate.
Qed.
End FarFloor.

(** ** Binary32: [fminf] picks the least key *)

Section B32KeyFacts.
Import B32.
Local Open Scope Z_scope.

Lemma key_ltb_spec (k l : Z * Z * Z) : key_ltb k l = true <-> key_lt k l.
Proof.
  destruct k as [[k1 k2] k3], l as [[l1 l2] l3].
  unfold key_ltb, key_lt. cbn [fst snd].
  destruct (Z.compare_spec k1 l1); [|split; intros; (lia || congruence)..];
  destruct (Z.compare_spec k2 l2); [|split; intros; (lia || congruence)..];
  destruct (Z.compare_spec k3 l3); split; intros; (lia || congruence).
Qed.

Lemma SFltb_key (a b : float) :
  is_nan a = false -> is_nan b = false -> SFltb a b = key_ltb (key a) (key b).
Proof.
  destruct a as [sa|sa| |sa ma ea], b as [sb|sb| |sb mb eb];
    try discriminate; intros _ _;
    try (destruct sa; reflexivity);
    try (destruct sb; reflexivity);
    try (destruct sa, sb; reflexivity).
  unfold SFltb, key_ltb. destruct sa, sb; cbn -[Z.compare Z.opp]; try reflexivity.
  - rewrite Z.compare_opp, (Z.compare_antisym ea eb).
    destruct (ea ?= eb); reflexivity.
  - destruct (ea ?= eb); reflexivity.
Qed.

(** [fminf] returns the operand of strictly smaller key, else the second. *)
Lemma b32_fminf_key (a b : float) :
  b32_fminf a b = if key_ltb (key a) (key b) then a else b.
Proof.
  destruct (is_nan a) eqn:Ha; [destruct a; try discriminate; destruct b as [[]|[]| |[] ? ?]; reflexivity|].
  destruct (is_nan b) eqn:Hb; [destruct b; try discriminate; destruct a as [[]|[]| |[] ? ?]; reflexivity|].
  rewrite (b32_fminf_lt _ _ Ha Hb), (SFltb_key _ _ Ha Hb). reflexivity.
Qed.

(** Apart from the two zeros, different floats have different keys. *)
Lemma key_inj (a b : float) :
  is_neg_zero a = false -> is_neg_zero b = false -> key a = key b -> a = b.
Proof.
  destruct a as [[]|[]| |[] ma ea], b as [[]|[]| |[] mb eb];
    cbn; try discriminate; try reflexivity; intros _ _ H;
    injection H as H1 H2; f_equal; lia.
Qed.

Lemma b32_fminf_cases (a b : float) :
  (b32_fminf a b = a \/ b32_fminf a b = b)
  /\ ~ key_lt (key a) (key (b32_fminf a b))
  /\ ~ key_lt (key b) (key (b32_fminf a b)).
Proof.
  rewrite b32_fminf_key.
  destruct (key_ltb (key a) (key b)) eqn:E.
  - apply key_ltb_spec in E. split; [left; reflexivity|].
    destruct (key a) as [[? ?] ?], (key b) as [[? ?] ?].
    unfold key_lt in *; cbn [fst snd] in *. lia.
  - assert (N : ~ key_lt (key a) (key b))
      by (intros H; apply key_ltb_spec in H; congruence).
    split; [right; reflexivity|].
    destruct (key a) as [[? ?] ?], (key b) as [[? ?] ?].
    unfold key_lt in *; cbn [fst snd] in *. lia.
Qed.

(** The union of four distances is one of them, and none has a smaller key. *)
Lemma min4_least (a b c d : float) :
  (min4 a b c d = a \/ min4 a b c d = b \/ min4 a b c d = c \/ min4 a b c d = d)
  /\ ~ key_lt (key a) (key (min4 a b c d))
  /\ ~ key_lt (key b) (key (min4 a b c d))
  /\ ~ key_lt (key c) (key (min4 a b c d))
  /\ ~ key_lt (key d) (key (min4 a b c d)).
Proof.
  unfold min4.
  destruct (b32_fminf_cases a b) as (H1 & H1a & H1b).
  destruct (b32_fminf_cases (b32_fminf a b) c) as (H2 & H2a & H2b).
  destruct (b32_fminf_cases (b32_fminf (b32_fminf a b) c) d) as (H3 & H3a & H3b).
  split; [intuition congruence|].
  destruct (key a) as [[? ?] ?], (key b) as [[? ?] ?], (key c) as [[? ?] ?],
    (key d) as [[? ?] ?], (key (b32_fminf a b)) as [[? ?] ?],
    (key (b32_fminf (b32_fminf a b) c)) as [[? ?] ?],
    (key (b32_fminf (b32_fminf (b32_fminf a b) c) d)) as [[? ?] ?].
  unfold key_lt in *; cbn [fst snd] in *. lia.
Qed.

(** Two floats that are each least among the same four, none of them the
    negative zero, are the same float. *)
Lemma least_unique (a b c d m n : float) :
  is_neg_zero a = false -> is_neg_zero b = false ->
  is_neg_zero c = false -> is_neg_zero d = false ->
  (m = a \/ m = b \/ m = c \/ m = d) ->
  (n = a \/ n = b \/ n = c \/ n = d) ->
  ~ key_lt (key a) (key m) -> ~ key_lt (key b) (key m) ->
  ~ key_lt (key c) (key m) -> ~ key_lt (key d) (key m) ->
  ~ key_lt (key a) (key n) -> ~ key_lt (key b) (key n) ->
  ~ key_lt (key c) (key n) -> ~ key_lt (key d) (key n) ->
  m = n.
Proof.
  intros Za Zb Zc Zd Hm Hn Ma Mb Mc Md Na Nb Nc Nd.
  assert (Zm : is_neg_zero m = false) by (intuition congruence).
  assert (Zn : is_neg_zero n = false) by (intuition congruence).
  apply key_inj; try assumption.
  assert (Hmn : ~ key_lt (key n) (key m)) by (intuition congruence).
  assert (Hnm : ~ key_lt (key m) (key n)) by (intuition congruence).
  destruct (key m) as [[? ?] ?], (key n) as [[? ?] ?].
  unfold key_lt in *; cbn [fst snd] in *.
  f_equal; [f_equal|]; lia.
Qed.

(** Swapping the operands pairwise leaves the union of four unchanged. *)
Lemma min4_swap_pairs (a b c d : float) :
  is_neg_zero a = false -> is_neg_zero b = false ->
  is_neg_zero c = false -> is_neg_zero d = false ->
  min4 b a d c = min4 a b c d.
Proof.
  intros Za Zb Zc Zd.
  destruct (min4_least a b c d) as (H & Ha & Hb & Hc & Hd).
  destruct (min4_least b a d c) as (H' & Hb' & Ha' & Hd' & Hc').
  apply (@least_unique a b c d); try assumption; intuition.
Qed.

(** Exchanging the first pair with the second leaves it unchanged too. *)
Lemma min4_swap_halves (a b c d : float) :
  is_neg_zero a = false -> is_neg_zero b = false ->
  is_neg_zero c = false -> is_neg_zero d = false ->
  min4 c d a b = min4 a b c d.
Proof.
  intros Za Zb Zc Zd.
  destruct (min4_least a b c d) as (H & Ha & Hb & Hc & Hd).
  destruct (min4_least c d a b) as (H' & Hc' & Hd' & Ha' & Hb').
  apply (@least_unique a b c d); try assumption; intuition.
Qed.
End B32KeyFacts.

(** ** Binary32: rounding never produces a spurious negative zero *)

Section B32Rounding.
Import B32.
Local Open Scope Z_scope.

Lemma digits2_lower (p : positive) : 2 ^ (Zpos (digits2_pos p) - 1) <= Zpos p.
Proof.
  induction p as [p IH|p IH|]; cbn [digits2_pos].
  - rewrite Pos2Z.inj_succ.
    replace (Z.succ (Zpos (digits2_pos p)) - 1)
      with (Z.succ (Zpos (digits2_pos p) - 1)) by lia.
    rewrite Z.pow_succ_r by lia. lia.
  - rewrite Pos2Z.inj_succ.
    replace (Z.succ (Zpos (digits2_pos p)) - 1)
      with (Z.succ (Zpos (digits2_pos p) - 1)) by lia.
    rewrite Z.pow_succ_r by lia. lia.
  - reflexivity.
Qed.

Lemma shr_m_shr_1 (r : shr_record) :
  0 <= shr_m r -> shr_m (shr_1 r) = shr_m r / 2.
Proof.
  destruct r as [m rb sb]. cbn [shr_m]. intros Hm.
  destruct m as [|[p|p|]|p]; cbn [shr_1 shr_m]; try lia; try reflexivity.
  - apply Z.div_unique with 1; lia.
  - apply Z.div_unique with 0; lia.
Qed.

Lemma shr_m_iter (n : positive) :
  forall r : shr_record,
    0 <= shr_m r -> shr_m (SpecFloat.iter_pos shr_1 n r) = shr_m r / 2 ^ Zpos n.
Proof.
  induction n as [n IH|n IH|]; intros r Hr; cbn [SpecFloat.iter_pos].
  - assert (H1 : 0 <= shr_m (shr_1 r))
      by (rewrite shr_m_shr_1 by assumption; apply Z.div_pos; lia).
    assert (H2 : 0 <= shr_m (SpecFloat.iter_pos shr_1 n (shr_1 r)))
      by (rewrite IH by assumption; apply Z.div_pos; lia).
    rewrite IH, IH, shr_m_shr_1 by assumption.
    rewrite !Z.div_div by lia.
    f_equal.
    replace (Zpos n~1) with (1 + Zpos n + Zpos n) by lia.
    rewrite !Z.pow_add_r by lia. lia.
  - assert (H2 : 0 <= shr_m (SpecFloat.iter_pos shr_1 n r))
      by (rewrite IH by assumption; apply Z.div_pos; lia).
    rewrite IH, IH by assumption.
    rewrite !Z.div_div by lia.
    f_equal.
    replace (Zpos n~0) with (Zpos n + Zpos n) by lia.
    rewrite !Z.pow_add_r by lia. lia.
  - rewrite shr_m_shr_1 by assumption. reflexivity.
Qed.

Lemma shr_m_of_loc (m : Z) (l : location) : shr_m (shr_record_of_loc m l) = m.
Proof. destruct l as [|[| |]]; reflexivity. Qed.

(** A mantissa whose value reaches [2^emin] survives the shift to the
    canonical exponent, which is at least [emin]. *)
Lemma shr_fexp_pos (m e : Z) (l : location) :
  0 < m ->
  (e < emin prec emax -> 2 ^ (emin prec emax - e) <= m) ->
  0 < shr_m (fst (shr_fexp prec emax m e l))
  /\ emin prec emax <= snd (shr_fexp prec emax m e l).
Proof.
  intros Hm Hlow. unfold shr_fexp, shr.
  destruct m as [|p|p]; try lia. cbn [Zdigits2].
  assert (Hd := digits2_lower p).
  set (d := Zpos (digits2_pos p)) in *.
  unfold fexp, emin, prec, emax in *.
  destruct (Z.max (d + e - 24) (3 - 128 - 24) - e) as [|k|k] eqn:Ek;
    cbn [fst snd].
  - rewrite shr_m_of_loc. lia.
  - rewrite shr_m_iter by (rewrite shr_m_of_loc; lia).
    rewrite shr_m_of_loc. split; [|lia].
    apply Z.div_str_pos. split; [apply Z.pow_pos_nonneg; lia|].
    destruct (Z.max_spec (d + e - 24) (3 - 128 - 24)) as [[_ Hmax]|[_ Hmax]].
    + replace (Zpos k) with (3 - 128 - 24 - e) by lia. apply Hlow. lia.
    + apply Z.le_trans with (2 ^ (d - 1)); [|exact Hd].
      apply Z.pow_le_mono_r; lia.
  - rewrite shr_m_of_loc. lia.
Qed.

Lemma round_nearest_even_ge (m : Z) (l : location) : m <= round_nearest_even m l.
Proof.
  destruct l as [|[| |]]; cbn [round_nearest_even]; try lia.
  destruct (Z.even m); lia.
Qed.

(** Rounding a mantissa whose value reaches [2^emin] yields a finite float of
    exponent at least [emin] or an infinity, never a zero. *)
Lemma binary_round_aux_nonzero (s : bool) (m e : Z) (l : location) :
  0 < m ->
  (e < emin prec emax -> 2 ^ (emin prec emax - e) <= m) ->
  is_neg_zero (binary_round_aux prec emax s m e l) = false
  /\ exp_ok (binary_round_aux prec emax s m e l).
Proof.
  intros Hm Hlow. unfold binary_round_aux.
  destruct (shr_fexp_pos l Hm Hlow) as [H1 H1e].
  destruct (shr_fexp prec emax m e l) as [r1 e1]. cbn [fst snd] in H1, H1e.
  assert (H2 : 0 < round_nearest_even (shr_m r1) (loc_of_shr_record r1))
    by (pose proof (round_nearest_even_ge (shr_m r1) (loc_of_shr_record r1)); lia).
  assert (H2e : e1 < emin prec emax ->
                2 ^ (emin prec emax - e1)
                <= round_nearest_even (shr_m r1) (loc_of_shr_record r1))
    by (intros H; exfalso; apply (Z.lt_irrefl e1); eapply Z.lt_le_trans; eassumption).
  destruct (shr_fexp_pos loc_Exact H2 H2e) as [H3 H3e].
  destruct (shr_fexp prec emax _ e1 loc_Exact) as [r2 e2].
  cbn [fst snd] in H3, H3e.
  destruct (shr_m r2) as [|q|q]; try lia.
  destruct (e2 <=? emax - prec); cbn; auto.
Qed.

Lemma binary_round_nonzero (s : bool) (p : positive) (e : Z) :
  emin prec emax <= e ->
  is_neg_zero (binary_round prec emax s p e) = false
  /\ exp_ok (binary_round prec emax s p e).
Proof.
  intros He. unfold binary_round, shl_align.
  destruct (fexp prec emax (Zpos (digits2_pos p) + e) - e) as [|k|k] eqn:Ek;
    apply binary_round_aux_nonzero; try lia.
  unfold fexp, emin, prec, emax in *. lia.
Qed.

(** Subtracting a finite nonzero constant never gives the negative zero. *)
Lemma SFsub_finite_not_neg_zero (a : float) (sc : bool) (mc : positive) (ec : Z) :
  exp_ok a -> emin prec emax <= ec ->
  is_neg_zero (SFsub prec emax a (S754_finite sc mc ec)) = false
  /\ exp_ok (SFsub prec emax a (S754_finite sc mc ec)).
Proof.
  intros Ha Hc.
  destruct a as [sa|sa| |sa ma ea]; cbn [SFsub exp_ok is_neg_zero] in *; auto.
  unfold binary_normalize.
  destruct (cond_Zopp sa (Zpos (fst (shl_align ma ea (Z.min ea ec))))
            - cond_Zopp sc (Zpos (fst (shl_align mc ec (Z.min ea ec)))));
    [cbn; auto | apply binary_round_nonzero; lia..].
Qed.
End B32Rounding.

(** ** Binary32: the mirror symmetry of the sphere scene *)

Section B32Mirror.
Import B32.
Local Open Scope Z_scope.

Lemma shr_fexp_exp (m e : Z) (l : location) :
  emin prec emax <= snd (shr_fexp prec emax m e l).
Proof.
  unfold shr_fexp, shr, fexp, emin, prec, emax.
  destruct (Z.max (Zdigits2 m + e - 24) (3 - 128 - 24) - e) eqn:E;
    cbn [snd]; lia.
Qed.

Lemma binary_round_aux_exp_ok (s : bool) (m e : Z) (l : location) :
  exp_ok (binary_round_aux prec emax s m e l).
Proof.
  unfold binary_round_aux.
  destruct (shr_fexp prec emax m e l) as [r1 e1].
  pose proof (shr_fexp_exp
                (round_nearest_even (shr_m r1) (loc_of_shr_record r1))
                e1 loc_Exact) as H.
  destruct (shr_fexp prec emax _ e1 loc_Exact) as [r2 e2]. cbn [snd] in H.
  destruct (shr_m r2); [exact I| |exact I].
  destruct (e2 <=? emax - prec); [exact H|exact I].
Qed.

Lemma SFsqrt_exp_ok (a : float) : exp_ok (SFsqrt prec emax a).
Proof.
  destruct a as [s|[]| |[] m e]; cbn [SFsqrt exp_ok]; auto.
  destruct (SFsqrt_core_binary prec emax (Zpos m) e) as [[mz ez] lz].
  apply binary_round_aux_exp_ok.
Qed.

Lemma valid_exp_ok (a : float) : valid a = true -> exp_ok a.
Proof.
  destruct a as [s|s| |s m e]; unfold valid; cbn [valid_binary exp_ok]; auto.
  unfold bounded, canonical_mantissa, fexp, emin, prec, emax.
  intros H. apply andb_prop in H. destruct H as [H _].
  apply Z.eqb_eq in H. unfold fexp, emin in H. lia.
Qed.

(** Multiplying by one keeps a float away from the negative zero. *)
Lemma SFmul_one_not_neg_zero (t : float) :
  is_neg_zero t = false -> exp_ok t ->
  is_neg_zero (SFmul prec emax t (S754_finite false 8388608 (-23))) = false.
Proof.
  destruct t as [[]|s| |s m e]; cbn [SFmul is_neg_zero exp_ok xorb];
    try discriminate; auto.
  intros _ He.
  apply binary_round_aux_nonzero; [lia|].
  unfold emin, prec, emax in *. intros Hlow.
  apply Z.le_trans with (2 ^ 23).
  - apply Z.pow_le_mono_r; lia.
  - change (2 ^ 23) with 8388608. lia.
Qed.

(** The remainder is an odd function of the dividend. *)
Lemma b32_fmodf_opp (a b : float) :
  b32_fmodf (SFopp a) b = SFopp (b32_fmodf a b).
Proof.
  destruct a as [sa|sa| |sa ma ea], b as [sb|sb| |sb mb eb];
    cbn [b32_fmodf SFopp]; try reflexivity.
  destruct (Z.rem (Zpos (fst (shl_align ma ea (Z.min ea eb))))
                  (Zpos (fst (shl_align mb eb (Z.min ea eb))))) as [|r|r];
    destruct sa; cbn [cond_Zopp negb Z.opp binary_normalize SFopp]; try reflexivity;
    unfold binary_round;
    destruct (shl_align r (Z.min ea eb) _) as [mz ez];
    unfold binary_round_aux;
    destruct (shr_fexp prec emax (Zpos mz) ez loc_Exact) as [r1 e1];
    destruct (shr_fexp prec emax _ e1 loc_Exact) as [r2 e2];
    destruct (shr_m r2); try reflexivity;
    destruct (e2 <=? emax - prec); reflexivity.
Qed.

Lemma SFopp_involutive (a : float) : SFopp (SFopp a) = a.
Proof. destruct a as [[]|[]| |[] m e]; reflexivity. Qed.

(** Negating the abscissa exchanges the plain and the sign-flipped lattice. *)
Lemma lattice_mirror_x (nx nz : bool) (x y z : float) :
  lattice nx nz (make_float3 (SFopp x) y z)
  = lattice (negb nx) nz (make_float3 x y z).
Proof.
  unfold lattice. cbn [fx fy fz fmodf fneg ops].
  rewrite b32_fmodf_opp.
  destruct nx; cbn [negb]; rewrite ?SFopp_involutive; reflexivity.
Qed.

Lemma lattice_mirror_z (nx nz : bool) (x y z : float) :
  lattice nx nz (make_float3 x y (SFopp z))
  = lattice nx (negb nz) (make_float3 x y z).
Proof.
  unfold lattice. cbn [fx fy fz fmodf fneg ops].
  rewrite b32_fmodf_opp.
  destruct nz; cbn [negb]; rewrite ?SFopp_involutive; reflexivity.
Qed.

(** A lattice sub-distance is never the negative zero. *)
Lemma lattice_not_neg_zero (nx nz : bool) (p : float3 float) :
  is_neg_zero (lattice nx nz p) = false.
Proof.
  unfold lattice. cbn [fsub sqrtf ops].
  change (flit 5 10 : float) with (S754_finite false 8388608 (-24)).
  apply SFsub_finite_not_neg_zero.
  - apply SFsqrt_exp_ok.
  - unfold emin, prec, emax. lia.
Qed.

(** The height term of the plane distance, [(y - -2) * 1]. *)
Lemma height_term_not_neg_zero (y : float) :
  valid y = true ->
  is_neg_zero
    (SFmul prec emax (SFsub prec emax y (S754_finite true 8388608 (-22)))
           (S754_finite false 8388608 (-23))) = false.
Proof.
  intros Hy.
  destruct (@SFsub_finite_not_neg_zero y true 8388608 (-22)) as [Hz He].
  - apply valid_exp_ok. exact Hy.
  - unfold emin, prec, emax. lia.
  - apply SFmul_one_not_neg_zero; assumption.
Qed.

(** Adding [x * 0] on the left of a float other than the negative zero
    gives the same result whatever the sign of [x]. *)
Lemma add_signed_zero_l (x t : float) :
  is_neg_zero t = false ->
  SFadd prec emax (SFmul prec emax (SFopp x) (S754_zero false)) t
  = SFadd prec emax (SFmul prec emax x (S754_zero false)) t
  /\ is_neg_zero (SFadd prec emax (SFmul prec emax x (S754_zero false)) t) = false.
Proof.
  destruct x as [[]|[]| |[] m e], t as [[]|[]| |[] mt et];
    cbn; try discriminate; auto.
Qed.

Lemma add_signed_zero_r (t z : float) :
  is_neg_zero t = false ->
  SFadd prec emax t (SFmul prec emax (SFopp z) (S754_zero false))
  = SFadd prec emax t (SFmul prec emax z (S754_zero false)).
Proof.
  destruct z as [[]|[]| |[] m e], t as [[]|[]| |[] mt et];
    cbn; try discriminate; auto.
Qed.

Lemma SFsub_zero_r (a : float) : SFsub prec emax a (S754_zero false) = a.
Proof. destruct a as [[]|[]| |[] m e]; reflexivity. Qed.

(** The plane distance does not see the sign of the abscissa or depth. *)
Lemma ground_plane_mirror (x y z : float) :
  valid y = true ->
  ground_plane (make_float3 (SFopp x) y z) = ground_plane (make_float3 x y z)
  /\ ground_plane (make_float3 x y (SFopp z)) = ground_plane (make_float3 x y z).
Proof.
  intros Hy. pose proof (height_term_not_neg_zero y Hy) as HY.
  unfold ground_plane, dot, vsub. cbn [fx fy fz fadd fsub fmul fneg ops].
  change (flit 0 1 : float) with (S754_zero false).
  change (SFopp (flit 2 1)) with (S754_finite true 8388608 (-22)).
  change (flit 1 1 : float) with (S754_finite false 8388608 (-23)).
  rewrite !SFsub_zero_r.
  destruct (add_signed_zero_l x _ HY) as [Hx Hnz].
  split.
  - rewrite Hx. reflexivity.
  - apply add_signed_zero_r. exact Hnz.
Qed.

Lemma lattice_spheres_min4 (p : float3 float) :
  lattice_spheres p
  = min4 (lattice false false p) (lattice true false p)
         (lattice false true p) (lattice true true p).
Proof. unfold lattice_spheres, min4. cbn [fminf ops]. reflexivity. Qed.

Lemma lattice_spheres_mirror (x y z : float) :
  lattice_spheres (make_float3 (SFopp x) y z) = lattice_spheres (make_float3 x y z)
  /\ lattice_spheres (make_float3 x y (SFopp z)) = lattice_spheres (make_float3 x y z).
Proof.
  rewrite !lattice_spheres_min4, !lattice_mirror_x, !lattice_mirror_z.
  cbn [negb].
  split; [apply min4_swap_pairs | apply min4_swap_halves];
    apply lattice_not_neg_zero.
Qed.

(** C10. Negating the abscissa (or the depth) of a binary32 point negates
    the remainder [fmodf(x, 2)] (resp. [fmodf(z, 2)]), which exchanges the
    four lattice sub-distances in pairs and leaves the plane distance alone;
    so the sphere scene and its colour are unchanged. *)
Theorem sphere_scene_mirror_symmetry (x y z : float) :
  valid3 (make_float3 x y z) = true ->
  (fmodf (fneg x) (flit 2 1) = fneg (fmodf x (flit 2 1))
   /\ forall nx nz,
       lattice nx nz (make_float3 (fneg x) y z)
       = lattice (negb nx) nz (make_float3 x y z)
       /\ lattice nx nz (make_float3 x y (fneg z))
          = lattice nx (negb nz) (make_float3 x y z))
  /\ sphereScene (make_float3 (fneg x) y z) = sphereScene (make_float3 x y z)
  /\ sphereScene (make_float3 x y (fneg z)) = sphereScene (make_float3 x y z)
  /\ sphereColor (make_float3 (fneg x) y z) = sphereColor (make_float3 x y z)
  /\ sphereColor (make_float3 x y (fneg z)) = sphereColor (make_float3 x y z).
Proof.
  unfold valid3. cbn [fx fy fz]. intros Hv.
  apply andb_prop in Hv. destruct Hv as [Hv _].
  apply andb_prop in Hv. destruct Hv as [_ Hy].
  destruct (@ground_plane_mirror x y z Hy) as [Px Pz].
  destruct (lattice_spheres_mirror x y z) as [Lx Lz].
  cbn [fneg ops].
  split; [split|].
  - apply b32_fmodf_opp.
  - intros nx nz. split; [apply lattice_mirror_x | apply lattice_mirror_z].
  - rewrite !sphereScene_union, !sphereColor_select, Px, Pz, Lx, Lz.
    repeat split; reflexivity.
Qed.

(** Witness of C10 at the point (0.3, -1.5, 5). *)
Lemma sphere_scene_mirror_symmetry_witness :
  let x : float := flit 3 10 in
  let y : float := fneg (flit 15 10) in
  let z : float := flit 5 1 in
  (fmodf (fneg x) (flit 2 1) = fneg (fmodf x (flit 2 1))
   /\ forall nx nz,
       lattice nx nz (make_float3 (fneg x) y z)
       = lattice (negb nx) nz (make_float3 x y z)
       /\ lattice nx nz (make_float3 x y (fneg z))
          = lattice nx (negb nz) (make_float3 x y z))
  /\ sphereScene (make_float3 (fneg x) y z) = sphereScene (make_float3 x y z)
  /\ sphereScene (make_float3 x y (fneg z)) = sphereScene (make_float3 x y z)
  /\ sphereColor (make_float3 (fneg x) y z) = sphereColor (make_float3 x y z)
  /\ sphereColor (make_float3 x y (fneg z)) = sphereColor (make_float3 x y z).
Proof.
  apply (sphere_scene_mirror_symmetry (flit 3 10) (fneg (flit 15 10)) (flit 5 1)).
  vm_compute. reflexivity.
Defined.
End B32Mirror.

(** ** Exact arithmetic: soundness of the enclosures *)

Section EnclosureFacts.
Local Open Scope R_scope.

Lemma scale_pos : 0 < IZR scale.
Proof. apply IZR_lt. reflexivity. Qed.

Lemma contains_add (a b : itv) (x y : R) :
  contains a x -> contains b y -> contains (iadd a b) (x + y).
Proof.
  unfold contains, iadd. cbn [lo hi]. rewrite !plus_IZR. intros [? ?] [? ?].
  split; lra.
Qed.

Lemma contains_sub (a b : itv) (x y : R) :
  contains a x -> contains b y -> contains (isub a b) (x - y).
Proof.
  unfold contains, isub. cbn [lo hi]. rewrite !minus_IZR. intros [? ?] [? ?].
  split; lra.
Qed.

Lemma contains_dbl (a : itv) (x : R) : contains a x -> contains (idbl a) (2 * x).
Proof.
  unfold contains, idbl. cbn [lo hi]. rewrite !mult_IZR. intros [? ?].
  split; lra.
Qed.

(** A product lies between the least and the greatest corner product. *)
Lemma corner_bounds (a b c d x y m M : R) :
  a <= x <= b -> c <= y <= d ->
  m <= a * c -> m <= a * d -> m <= b * c -> m <= b * d ->
  a * c <= M -> a * d <= M -> b * c <= M -> b * d <= M ->
  m <= x * y <= M.
Proof.
  intros [Hax Hxb] [Hcy Hyd] m1 m2 m3 m4 M1 M2 M3 M4.
  destruct (Rle_dec 0 y) as [Hy|Hy].
  - assert (a * y <= x * y <= b * y) by (split; nra).
    destruct (Rle_dec 0 a), (Rle_dec 0 b); split; nra.
  - assert (b * y <= x * y <= a * y) by (split; nra).
    destruct (Rle_dec 0 a), (Rle_dec 0 b); split; nra.
Qed.

Lemma IZR_div_floor (n : Z) : IZR (n / scale) * IZR scale <= IZR n.
Proof.
  rewrite <- mult_IZR. apply IZR_le.
  rewrite Z.mul_comm. apply Z.mul_div_le. reflexivity.
Qed.

Lemma IZR_div_ceil (n : Z) : IZR n <= IZR (- (- n / scale)) * IZR scale.
Proof.
  rewrite <- mult_IZR. apply IZR_le.
  pose proof (Z.mul_div_le (- n) scale eq_refl). lia.
Qed.

Lemma contains_mul (a b : itv) (x y : R) :
  contains a x -> contains b y -> contains (imul a b) (x * y).
Proof.
  unfold contains, imul. cbn [lo hi]. intros Hx Hy.
  set (m := Z.min (Z.min (lo a * lo b) (lo a * hi b))
                  (Z.min (hi a * lo b) (hi a * hi b))).
  set (M := Z.max (Z.max (lo a * lo b) (lo a * hi b))
                  (Z.max (hi a * lo b) (hi a * hi b))).
  assert (Hc : IZR m <= (x * IZR scale) * (y * IZR scale) <= IZR M).
  { apply (corner_bounds Hx Hy); rewrite <- mult_IZR; apply IZR_le;
      unfold m, M; lia. }
  pose proof (IZR_div_floor m). pose proof (IZR_div_ceil M).
  pose proof scale_pos as HS.
  split.
  - apply Rmult_le_reg_r with (IZR scale); [exact HS|]. nra.
  - apply Rmult_le_reg_r with (IZR scale); [exact HS|]. nra.
Qed.

Lemma contains_ratio (n : Z) (d : positive) :
  contains (iratio n d) (IZR n / IZR (Zpos d)).
Proof.
  unfold contains, iratio. cbn [lo hi].
  assert (Hd : 0 < IZR (Zpos d)) by (apply IZR_lt; reflexivity).
  assert (H1 : IZR (n * scale / Zpos d) * IZR (Zpos d) <= IZR (n * scale)).
  { rewrite <- mult_IZR. apply IZR_le. rewrite Z.mul_comm.
    apply Z.mul_div_le. reflexivity. }
  assert (H2 : IZR (n * scale) <= IZR (- (- (n * scale) / Zpos d)) * IZR (Zpos d)).
  { rewrite <- mult_IZR. apply IZR_le.
    pose proof (Z.mul_div_le (- (n * scale)) (Zpos d) eq_refl). lia. }
  rewrite mult_IZR in H1, H2.
  replace (IZR n / IZR (Zpos d) * IZR scale)
    with (IZR n * IZR scale / IZR (Zpos d)) by (field; lra).
  split.
  - apply Rmult_le_reg_r with (IZR (Zpos d)); [exact Hd|].
    replace (IZR n * IZR scale / IZR (Zpos d) * IZR (Zpos d))
      with (IZR n * IZR scale) by (field; lra).
    exact H1.
  - apply Rmult_le_reg_r with (IZR (Zpos d)); [exact Hd|].
    replace (IZR n * IZR scale / IZR (Zpos d) * IZR (Zpos d))
      with (IZR n * IZR scale) by (field; lra).
    exact H2.
Qed.

Lemma contains2_csq (i : itv * itv) (p : R * R) :
  contains2 i p -> contains2 (icsq i) (csq p).
Proof.
  intros [Hx Hy]. split; cbn [fst snd icsq csq].
  - apply contains_sub; apply contains_mul; assumption.
  - rewrite Rmult_assoc. apply contains_dbl. apply contains_mul; assumption.
Qed.

Lemma contains2_step (ic i : itv * itv) (c p : R * R) :
  contains2 ic c -> contains2 i p -> contains2 (istep ic i) (planar_step c p).
Proof.
  intros [Hcx Hcy] Hp.
  destruct (contains2_csq (contains2_csq (contains2_csq Hp))) as [Hx Hy].
  split; cbn [fst snd istep planar_step]; apply contains_add; assumption.
Qed.

Lemma contains2_orbit (ic : itv * itv) (c : R * R) (k : nat) :
  contains2 ic c -> contains2 (iorbit ic k) (planar_orbit c k).
Proof.
  intros Hc. induction k as [|k IH]; cbn [iorbit planar_orbit].
  - exact Hc.
  - apply contains2_step; assumption.
Qed.

Lemma contains_norm2 (i : itv * itv) (p : R * R) :
  contains2 i p -> contains (inorm2 i) (norm2 p).
Proof.
  intros [Hx Hy]. unfold inorm2, norm2.
  apply contains_add; apply contains_mul; assumption.
Qed.

Lemma stays_inside_sound (i : itv * itv) (p : R * R) :
  contains2 i p -> stays_inside i = true -> 0 < norm2 p <= 16.
Proof.
  intros Hp H. apply contains_norm2 in Hp. destruct Hp as [Hlo Hhi].
  unfold stays_inside in H. apply andb_prop in H. destruct H as [H1 H2].
  apply Z.ltb_lt in H1. apply Z.leb_le in H2.
  apply IZR_lt in H1. apply IZR_le in H2. rewrite mult_IZR in H2.
  pose proof scale_pos. split; nra.
Qed.

Lemma inside_unit_sound (i : itv * itv) (p : R * R) :
  contains2 i p -> inside_unit i = true -> 0 < norm2 p < 1.
Proof.
  intros Hp H. apply contains_norm2 in Hp. destruct Hp as [Hlo Hhi].
  unfold inside_unit in H. apply andb_prop in H. destruct H as [H1 H2].
  apply Z.ltb_lt in H1. apply Z.ltb_lt in H2.
  apply IZR_lt in H1. apply IZR_lt in H2.
  pose proof scale_pos. split; nra.
Qed.
End EnclosureFacts.

(** ** Exact arithmetic: the estimator in the plane [z = 0] *)

Section NoEscape.
Context {F : Type} {ops : FloatOps F} {lm : Libm F}.
Local Open Scope fl_scope.

(** When no step escapes, the loop runs all its iterations and the estimate
    uses the radius measured at the last one. *)
Lemma mandelbulb_no_escape (pos : float3 F) (n : nat) (bail power : F) :
  (forall i, (i < S n)%nat -> escaped pos bail power i = false) ->
  mandelbulb pos (Z.of_nat (S n)) bail power
  = estimate (radius_at pos power n) (snd (orbit pos power (S n))).
Proof.
  intros Hin. unfold mandelbulb. rewrite Nat2Z.id.
  destruct (mandelbulb_loop_orbit pos bail power (S n) 0 (flit 0 1))
    as (k & Hk & _ & Hat & Hres).
  assert (k = S n).
  { destruct (Nat.eq_dec k (S n)) as [|Hne]; [assumption|].
    assert (Hlt : (k < 0 + S n)%nat) by lia.
    specialize (Hat Hlt). rewrite Hin in Hat by lia. discriminate. }
  subst k. cbn [orbit fst snd] in Hres. rewrite Hres.
  replace (S n <? 0 + S n)%nat with false
    by (symmetry; apply Nat.ltb_ge; lia).
  cbn [Nat.eqb Nat.pred]. reflexivity.
Qed.
End NoEscape.

Section PlanarFacts.
Import RealModel.
Local Open Scope R_scope.

Lemma sqrt_1_tan2 (x y : R) :
  x <> 0 -> sqrt (1 + (y / x)²) = sqrt (x * x + y * y) / Rabs x.
Proof.
  intros Hx. rewrite <- (sqrt_Rsqr_abs x).
  rewrite <- sqrt_div_alt by (apply Rlt_0_sqr; exact Hx).
  f_equal. unfold Rsqr. field. exact Hx.
Qed.

(** [atan2(y, x)] is the angle of the point [(x, y)]. *)
Lemma atan2_polar (x y : R) :
  0 < x * x + y * y ->
  sqrt (x * x + y * y) * cos (R_atan2 y x) = x
  /\ sqrt (x * x + y * y) * sin (R_atan2 y x) = y.
Proof.
  intros Hn. assert (Hr := sqrt_lt_R0 _ Hn).
  set (r := sqrt (x * x + y * y)) in *.
  unfold R_atan2.
  destruct (Rlt_dec 0 x) as [Hx|Hx]; [|destruct (Rlt_dec x 0) as [Hx'|Hx']].
  - rewrite cos_atan, sin_atan, sqrt_1_tan2 by lra. fold r.
    rewrite Rabs_pos_eq by lra. split; field; lra.
  - assert (Hc : cos (atan (y / x)) = - x / r)
      by (rewrite cos_atan, sqrt_1_tan2 by lra; fold r;
          rewrite Rabs_left by lra; field; lra).
    assert (Hs : sin (atan (y / x)) = - y / r)
      by (rewrite sin_atan, sqrt_1_tan2 by lra; fold r;
          rewrite Rabs_left by lra; field; lra).
    destruct (Rle_dec 0 y).
    + rewrite neg_cos, neg_sin, Hc, Hs. split; field; lra.
    + unfold Rminus. rewrite cos_plus, sin_plus, cos_neg, sin_neg, cos_PI, sin_PI, Hc, Hs.
      split; field; lra.
  - assert (x = 0) by lra. subst x.
    assert (Hy : r * r = y * y)
      by (unfold r; rewrite sqrt_sqrt by lra; ring).
    destruct (Rlt_dec 0 y) as [Hy0|Hy0]; [|destruct (Rlt_dec y 0) as [Hy1|Hy1]].
    + rewrite cos_PI2, sin_PI2. split; nra.
    + rewrite cos_neg, sin_neg, cos_PI2, sin_PI2. split; nra.
    + exfalso. nra.
Qed.

Lemma csq_polar (rho a : R) :
  csq (rho * cos a, rho * sin a)
  = (rho * rho * cos (2 * a), rho * rho * sin (2 * a)).
Proof.
  unfold csq. cbn [fst snd]. rewrite cos_2a, sin_2a. f_equal; ring.
Qed.

(** Three squarings raise the radius to the power 8 and multiply the angle
    by 8. *)
Lemma pow8_polar (rho a : R) :
  csq (csq (csq (rho * cos a, rho * sin a)))
  = (rho ^ 8 * cos (a * 8), rho ^ 8 * sin (a * 8)).
Proof.
  rewrite !csq_polar.
  replace (2 * (2 * (2 * a))) with (a * 8) by ring.
  f_equal; f_equal; ring.
Qed.

Lemma R_pow_pos (r y : R) : 0 < r -> 0 < R_pow r y.
Proof.
  intros Hr. unfold R_pow. destruct (Rlt_dec 0 r); [|contradiction].
  unfold Rpower. apply exp_pos.
Qed.

Lemma R_pow_8 (r : R) : 0 < r -> R_pow r 8 = r ^ 8.
Proof.
  intros Hr. unfold R_pow. destruct (Rlt_dec 0 r); [|contradiction].
  replace 8 with (INR 8) by (simpl; lra).
  apply Rpower_pow. exact Hr.
Qed.

(** One step of the estimator on a point of the plane [z = 0], the constant
    [pos] lying in that plane too: the planar map [w -> w^8 + c]. *)
Lemma spherical_step_planar (pos : float3 R) (x y dr : R) :
  fz pos = 0 ->
  0 < norm2 (x, y) ->
  fst (spherical_step pos (flit 8 1) (make_float3 x y 0, dr))
  = make_float3 (fst (planar_step (fx pos, fy pos) (x, y)))
                (snd (planar_step (fx pos, fy pos) (x, y)))
                0
  /\ (0 < dr -> 0 < snd (spherical_step pos (flit 8 1) (make_float3 x y 0, dr))).
Proof.
  intros Hpos Hn. unfold norm2 in Hn. cbn [fst snd] in Hn.
  assert (Hlen : length (make_float3 x y 0 : float3 R) = sqrt (x * x + y * y)).
  { rewrite length_R. cbn [fx fy fz]. f_equal. ring. }
  assert (Hr := sqrt_lt_R0 _ Hn).
  destruct (atan2_polar Hn) as [Hx Hy].
  assert (H8 : IZR 8 / IZR 1 = 8) by lra.
  unfold spherical_step. cbn [fst snd]. rewrite Hlen.
  set (r := sqrt (x * x + y * y)) in *.
  assert (Hq : (r ^ 8 * cos (R_atan2 y x * 8), r ^ 8 * sin (R_atan2 y x * 8))
               = csq (csq (csq (x, y))))
    by (rewrite <- pow8_polar, Hx, Hy; reflexivity).
  split.
  - cbn [fx fy fz fadd fsub fmul fdiv asinf atan2f powf cosf sinf
         ops libm flit].
    rewrite H8.
    replace (0 / r) with 0 by (unfold Rdiv; ring).
    rewrite asin_0, Rmult_0_l, cos_0, sin_0.
    rewrite R_pow_8 by exact Hr.
    unfold vadd, smulv, planar_step. rewrite <- Hq.
    cbn [fx fy fz fst snd fadd fmul ops]. rewrite Hpos.
    f_equal; ring.
  - intros Hdr.
    cbn [fadd fsub fmul powf ops libm flit].
    pose proof (R_pow_pos (IZR 8 / IZR 1 - IZR 1 / IZR 1) Hr).
    assert (0 < R_pow r (IZR 8 / IZR 1 - IZR 1 / IZR 1) * (IZR 8 / IZR 1) * dr)
      by (apply Rmult_lt_0_compat; [apply Rmult_lt_0_compat|]; lra).
    lra.
Qed.
End PlanarFacts.

(** ** The composition of the Mandelbulb scene *)

Section SceneComposition.
Import B32 RealModel.
Local Open Scope fl_scope.

(** C2. The Mandelbulb scene is the union of the estimator, run for 8
    iterations with bailout 4 and power 8 on the point whose three components
    are each divided by 2.3, its estimate multiplied by 2.3, with the plane
    distance of the point translated by (0,-2,0) to the normal (0,1,0).
    That plane is the floor of height -2: in exact arithmetic its distance is
    [y + 2], and on binary32 it is +0 at every finite point of height -2. *)
Theorem mandelbulbScene_composition :
  (forall (F : Type) (ops : FloatOps F) (lm : Libm F) (pos : float3 F),
      mandelbulbScene pos
      = sdfUnion
          (mandelbulb (make_float3 (fx pos / flit 23 10) (fy pos / flit 23 10)
                                   (fz pos / flit 23 10))
                      8 (flit 4 1) (flit 8 1)
           * flit 23 10)
          (sdfPlane (vsub pos (make_float3 (flit 0 1) (- flit 2 1) (flit 0 1)))
                    (make_float3 (flit 0 1) (flit 1 1) (flit 0 1)))
      /\ sdfPlane (vsub pos (make_float3 (flit 0 1) (- flit 2 1) (flit 0 1)))
                  (make_float3 (flit 0 1) (flit 1 1) (flit 0 1))
         = (fx pos - flit 0 1) * flit 0 1
           + (fy pos - - flit 2 1) * flit 1 1
           + (fz pos - flit 0 1) * flit 0 1)
  /\ (forall pos : float3 R,
         sdfPlane (vsub pos (make_float3 (flit 0 1) (- flit 2 1) (flit 0 1)))
                  (make_float3 (flit 0 1) (flit 1 1) (flit 0 1))
         = (fy pos + 2)%R)
  /\ (forall a c : B32.float,
         is_finite a = true -> is_finite c = true ->
         sdfPlane (vsub (make_float3 a (- flit 2 1) c)
                        (make_float3 (flit 0 1) (- flit 2 1) (flit 0 1)))
                  (make_float3 (flit 0 1) (flit 1 1) (flit 0 1))
         = flit 0 1).
Proof.
  split; [|split].
  - intros F ops lm pos. split.
    + rewrite mandelbulbScene_union. unfold fractal_term, ground_plane, vdivs.
      reflexivity.
    + unfold sdfPlane, dot, vsub. reflexivity.
  - intros pos. apply ground_plane_R.
  - intros a c Ha Hc. apply (ground_plane_floor a c Ha Hc).
Qed.
End SceneComposition.

(** ** The Mandelbulb scene on the floor below the fractal *)

Section FloorPoint.
Import RealModel.
Local Open Scope R_scope.

(** As long as the planar orbit avoids the origin, the iterates of the
    estimator from a point [pos] of the plane [z = 0] are the planar orbit
    of [(pos.x, pos.y)], and the running derivative stays positive. *)
Lemma orbit_planar (pos : float3 R) (k : nat) :
  fz pos = 0 ->
  (forall j, (j < k)%nat -> 0 < norm2 (planar_orbit (fx pos, fy pos) j)) ->
  fst (orbit pos (flit 8 1) k)
  = make_float3 (fst (planar_orbit (fx pos, fy pos) k))
                (snd (planar_orbit (fx pos, fy pos) k)) 0
  /\ 0 < snd (orbit pos (flit 8 1) k).
Proof.
  intros Hpos. induction k as [|k IH]; intros Hn.
  - cbn [orbit planar_orbit fst snd]. split.
    + destruct pos as [px py pz]. cbn [fx fy fz] in *. subst pz. reflexivity.
    + rewrite flit_R. lra.
  - destruct IH as [Hz Hdr]; [intros j Hj; apply Hn; lia|].
    assert (Hk := Hn k (Nat.lt_succ_diag_r k)).
    cbn [orbit planar_orbit].
    destruct (orbit pos (flit 8 1) k) as [z dr]. cbn [fst snd] in Hz, Hdr.
    subst z.
    destruct (planar_orbit (fx pos, fy pos) k) as [x y]. cbn [fst snd].
    destruct (@spherical_step_planar pos x y dr Hpos Hk) as [H1 H2].
    split; [exact H1 | exact (H2 Hdr)].
Qed.

Lemma radius_planar (pos : float3 R) (k : nat) :
  fz pos = 0 ->
  (forall j, (j < k)%nat -> 0 < norm2 (planar_orbit (fx pos, fy pos) j)) ->
  radius_at pos (flit 8 1) k = sqrt (norm2 (planar_orbit (fx pos, fy pos) k)).
Proof.
  intros Hpos Hn. unfold radius_at.
  destruct (@orbit_planar pos k Hpos Hn) as [Hz _]. rewrite Hz, length_R.
  unfold norm2. cbn [fx fy fz]. f_equal. ring.
Qed.

Lemma never_escapes_sound (ic : itv * itv) (c : R * R) (n : nat) :
  contains2 ic c -> never_escapes ic n = true ->
  forall k, (k < n)%nat -> 0 < norm2 (planar_orbit c k) <= 16.
Proof.
  intros Hc. induction n as [|n IH]; intros H k Hk; [lia|].
  cbn [never_escapes] in H. apply andb_prop in H. destruct H as [H1 H2].
  destruct (Nat.eq_dec k n) as [->|Hne].
  - apply (stays_inside_sound (contains2_orbit n Hc) H2).
  - apply IH; [exact H1 | lia].
Qed.

(** The scaled query point (0,-2,0)/2.3 and its enclosure. *)
Lemma floor_seed_sound :
  let pos := vdivs (make_float3 0 (-2) 0 : float3 R) (flit 23 10) in
  fz pos = 0 /\ contains2 floor_seed (fx pos, fy pos).
Proof.
  cbn [vdivs fx fy fz fdiv flit ops]. split; [lra|].
  split; cbn [fst snd floor_seed].
  - unfold contains. cbn [lo hi]. lra.
  - replace (-2 / (IZR 23 / IZR 10)) with (IZR (-20) / IZR 23) by lra.
    apply contains_ratio.
Qed.

(** In exact arithmetic the orbit of (0,-2,0)/2.3 does not escape within the
    8 iterations and its last radius is below 1, so the estimate, and with
    it the fractal term, is negative. *)
Lemma fractal_term_floor_negative :
  fractal_term (make_float3 0 (-2) 0 : float3 R) < 0.
Proof.
  destruct floor_seed_sound as [Hz Hc].
  set (pos := vdivs (make_float3 0 (-2) 0 : float3 R) (flit 23 10)) in *.
  assert (Hin : forall k, (k < 8)%nat ->
                  0 < norm2 (planar_orbit (fx pos, fy pos) k) <= 16).
  { apply (never_escapes_sound Hc). vm_compute. reflexivity. }
  assert (H7 : 0 < norm2 (planar_orbit (fx pos, fy pos) 7) < 1).
  { apply (inside_unit_sound (contains2_orbit 7 Hc)). vm_compute. reflexivity. }
  assert (Hpos : forall k, (k <= 8)%nat -> forall j, (j < k)%nat ->
                   0 < norm2 (planar_orbit (fx pos, fy pos) j)).
  { intros k Hk j Hj. apply Hin. lia. }
  unfold fractal_term. fold pos.
  change (mandelbulb pos 8 (flit 4 1) (flit 8 1))
    with (mandelbulb pos (Z.of_nat 8) (flit 4 1) (flit 8 1)).
  rewrite mandelbulb_no_escape.
  - rewrite (@radius_planar pos 7 Hz (Hpos 7%nat ltac:(lia))).
    destruct (@orbit_planar pos 8 Hz (Hpos 8%nat ltac:(lia))) as [_ Hdr].
    set (dr := snd (orbit pos (flit 8 1) 8)) in *.
    set (n7 := norm2 (planar_orbit (fx pos, fy pos) 7)) in *.
    assert (Hr0 : 0 < sqrt n7) by (apply sqrt_lt_R0; lra).
    assert (Hr1 : sqrt n7 < 1)
      by (rewrite <- sqrt_1; apply sqrt_lt_1_alt; lra).
    assert (Hln : ln (sqrt n7) < 0)
      by (rewrite <- ln_1; apply ln_increasing; lra).
    assert (Hinv : 0 < / dr) by (apply Rinv_0_lt_compat; exact Hdr).
    unfold estimate. cbn [fmul fdiv logf flit ops libm]. unfold Rdiv.
    assert (0 < - ln (sqrt n7) * sqrt n7 * / dr)
      by (apply Rmult_lt_0_compat; [apply Rmult_lt_0_compat|]; lra).
    lra.
  - intros i Hi. unfold escaped.
    rewrite (@radius_planar pos i Hz (Hpos i ltac:(lia))).
    cbn [fltb flit ops]. apply Rltb_false.
    replace (IZR 4 / IZR 1) with (sqrt (4 * 4)) by (rewrite sqrt_square; lra).
    apply sqrt_le_1_alt. destruct (Hin i Hi). lra.
Qed.

(** C7, counterexample. In exact arithmetic the Mandelbulb scene at
    (0,-2,0) is not 0. *)
Lemma mandelbulbScene_floor_not_zero :
  mandelbulbScene (make_float3 0 (-2) 0 : float3 R) <> 0.
Proof.
  rewrite mandelbulbScene_union, ground_plane_R. cbn [fy].
  pose proof fractal_term_floor_negative as H.
  replace (-2 + 2) with 0 by ring.
  cbn [fminf ops]. rewrite Rmin_left; lra.
Qed.

End FloorPoint.

Section FloorScene.
Import B32 RealModel.
Local Open Scope R_scope.

(** The union of a binary32 distance [t] with +0 is +0 exactly when [t] is
    not below zero. *)
Lemma fminf_zero_iff (t : B32.float) :
  B32.b32_fminf t (S754_zero false) = S754_zero false
  <-> SFltb t (S754_zero false) = false.
Proof.
  destruct t as [[]|[]| |[] m e]; cbn; split; intros H;
    try reflexivity; try discriminate.
Qed.

(** C7, amended. At (0,-2,0) the plane sub-distance is 0 and the scene is
    the union of the fractal term with 0: it is 0 exactly when the fractal
    term is not negative.  In exact arithmetic the fractal term there is
    negative, and the scene returns it. *)
Theorem mandelbulbScene_on_floor :
  (ground_plane (make_float3 0 (-2) 0 : float3 R) = 0
   /\ fractal_term (make_float3 0 (-2) 0 : float3 R) < 0
   /\ mandelbulbScene (make_float3 0 (-2) 0 : float3 R)
      = fractal_term (make_float3 0 (-2) 0 : float3 R))
  /\
  (forall lm : Libm B32.float,
      let p : float3 B32.float :=
        make_float3 (flit 0 1) (fneg (flit 2 1)) (flit 0 1) in
      ground_plane p = flit 0 1
      /\ mandelbulbScene p = fminf (fractal_term p) (flit 0 1)
      /\ (mandelbulbScene p = flit 0 1
          <-> fltb (fractal_term p) (flit 0 1) = false)).
Proof.
  split.
  - pose proof fractal_term_floor_negative as H.
    assert (Hg : ground_plane (make_float3 0 (-2) 0 : float3 R) = 0)
      by (rewrite ground_plane_R; cbn [fy]; ring).
    split; [exact Hg|]. split; [exact H|].
    rewrite mandelbulbScene_union, Hg. cbn [fminf ops].
    apply Rmin_left. lra.
  - intros lm p.
    assert (Hg : ground_plane p = flit 0 1)
      by (apply ground_plane_floor; reflexivity).
    split; [exact Hg|].
    rewrite mandelbulbScene_union, Hg.
    split; [reflexivity|].
    change (flit 0 1 : B32.float) with (S754_zero false).
    apply fminf_zero_iff.
Qed.
End FloorScene.

(** * Further properties of the code *)

(** ** Binary32: the algebra of the combinators *)

Section B32Algebra.
Import B32.

Lemma SFltb_opp (a b : float) : SFltb (SFopp a) (SFopp b) = SFltb b a.
Proof.
  destruct a as [[]|[]| |sa ma ea], b as [[]|[]| |sb mb eb]; try reflexivity;
    try (destruct sa; reflexivity); try (destruct sb; reflexivity).
  unfold SFltb. cbn [SFopp SFcompare].
  assert (Hm : Pos.compare_cont Eq ma mb = CompOpp (Pos.compare_cont Eq mb ma))
    by (rewrite (Pos.compare_cont_antisym mb ma Eq); reflexivity).
  destruct sa, sb; cbn [negb]; try reflexivity;
    rewrite (Z.compare_antisym eb ea), Hm;
    destruct (eb ?= ea)%Z; cbn [CompOpp]; try reflexivity;
    destruct (Pos.compare_cont Eq mb ma); reflexivity.
Qed.

(** The maximum is the negated minimum of the negated operands. *)
Lemma b32_fmaxf_dual (a b : float) :
  b32_fmaxf a b = SFopp (b32_fminf (SFopp a) (SFopp b)).
Proof.
  destruct (is_nan a) eqn:Ha;
    [destruct a; try discriminate; destruct b as [[]|[]| |[] ? ?]; reflexivity|].
  destruct (is_nan b) eqn:Hb;
    [destruct b; try discriminate; destruct a as [[]|[]| |[] ? ?]; reflexivity|].
  rewrite (b32_fmaxf_lt _ _ Ha Hb).
  rewrite b32_fminf_lt by (destruct a, b; try discriminate; reflexivity).
  rewrite SFltb_opp.
  destruct (SFltb b a); apply eq_sym, SFopp_involutive.
Qed.

(** X1. De Morgan duality, bit for bit and NaN included: the union is the
    negated intersection of the negated distances and conversely, and
    subtracting [a] from [b] is the negated union of [a] with the negated
    [b]. *)
Theorem combinators_duality (a b : float) :
  sdfUnion a b = fneg (sdfIntersection (fneg a) (fneg b))
  /\ sdfIntersection a b = fneg (sdfUnion (fneg a) (fneg b))
  /\ sdfDifference a b = fneg (sdfUnion a (fneg b)).
Proof.
  unfold sdfUnion, sdfIntersection, sdfDifference.
  cbn [fminf fmaxf fneg ops].
  rewrite !b32_fmaxf_dual, !SFopp_involutive.
  repeat split; reflexivity.
Qed.

Lemma distinct_zeros_sym (a b : float) : distinct_zeros a b = distinct_zeros b a.
Proof. destruct a as [[]|?| |? ? ?], b as [[]|?| |? ? ?]; reflexivity. Qed.

Lemma distinct_zeros_opp (a b : float) :
  distinct_zeros (SFopp a) (SFopp b) = distinct_zeros a b.
Proof. destruct a as [[]|?| |? ? ?], b as [[]|?| |? ? ?]; reflexivity. Qed.

(** Two operands of equal key are one float, unless they are the two zeros. *)
Lemma key_eq_same (a b : float) :
  distinct_zeros a b = false -> key a = key b -> a = b.
Proof.
  destruct a as [[]|[]| |[] ma ea], b as [[]|[]| |[] mb eb];
    cbn; try discriminate; try reflexivity; intros _ H;
    injection H as H1 H2; f_equal; lia.
Qed.

Lemma key_order_total (k l : Z * Z * Z) :
  ~ key_lt k l -> ~ key_lt l k -> k = l.
Proof.
  destruct k as [[k1 k2] k3], l as [[l1 l2] l3].
  unfold key_lt; cbn [fst snd]. intros H1 H2.
  f_equal; [f_equal|]; lia.
Qed.

Lemma key_ltb_false (k l : Z * Z * Z) : key_ltb k l = false -> ~ key_lt k l.
Proof. intros H K. apply key_ltb_spec in K. congruence. Qed.

Lemma key_lt_trans (k l m : Z * Z * Z) : key_lt k l -> key_lt l m -> key_lt k m.
Proof.
  destruct k as [[k1 k2] k3], l as [[l1 l2] l3], m as [[m1 m2] m3].
  unfold key_lt; cbn [fst snd]. lia.
Qed.

Lemma key_lt_irrefl (k : Z * Z * Z) : ~ key_lt k k.
Proof. destruct k as [[k1 k2] k3]. unfold key_lt; cbn [fst snd]. lia. Qed.

Lemma key_lt_cases (k l : Z * Z * Z) : key_lt k l \/ k = l \/ key_lt l k.
Proof.
  destruct k as [[k1 k2] k3], l as [[l1 l2] l3].
  unfold key_lt; cbn [fst snd].
  destruct (Z.lt_trichotomy k1 l1) as [|[|]];
    destruct (Z.lt_trichotomy k2 l2) as [|[|]];
    destruct (Z.lt_trichotomy k3 l3) as [|[|]]; subst; auto 10.
Qed.

Lemma b32_fminf_comm (a b : float) :
  distinct_zeros a b = false -> b32_fminf a b = b32_fminf b a.
Proof.
  intros Hz. rewrite !b32_fminf_key.
  destruct (key_ltb (key a) (key b)) eqn:E1, (key_ltb (key b) (key a)) eqn:E2;
    try reflexivity.
  - apply key_ltb_spec in E1, E2.
    destruct (key_lt_irrefl (key_lt_trans E1 E2)).
  - symmetry. apply key_eq_same; [exact Hz|].
    apply key_order_total; apply key_ltb_false; assumption.
Qed.

Lemma b32_fminf_assoc (a b c : float) :
  distinct_zeros a b = false -> distinct_zeros b c = false ->
  distinct_zeros a c = false ->
  b32_fminf (b32_fminf a b) c = b32_fminf a (b32_fminf b c).
Proof.
  intros Hab Hbc Hac.
  rewrite (b32_fminf_key a b), (b32_fminf_key b c).
  destruct (key_ltb (key a) (key b)) eqn:E1, (key_ltb (key b) (key c)) eqn:E2;
    rewrite !b32_fminf_key, ?E1, ?E2; try reflexivity.
  - apply key_ltb_spec in E1, E2.
    rewrite (proj2 (key_ltb_spec _ _) (key_lt_trans E1 E2)). reflexivity.
  - destruct (key_ltb (key a) (key c)) eqn:E3; [|reflexivity].
    apply key_ltb_spec in E3. apply key_ltb_false in E1, E2.
    exfalso.
    destruct (key_lt_cases (key b) (key a)) as [H|[H|H]]; try contradiction.
    + destruct (key_lt_cases (key c) (key b)) as [K|[K|K]]; try contradiction.
      * apply (@key_lt_irrefl (key a)).
        exact (key_lt_trans E3 (key_lt_trans K H)).
      * rewrite K in E3. apply (@key_lt_irrefl (key a)).
        exact (key_lt_trans E3 H).
    + rewrite <- H in E3. contradiction.
Qed.

(** X2. Apart from the sign of a zero result, union and intersection are
    commutative and associative on binary32, NaN operands included, and both
    are idempotent. *)
Theorem union_intersection_semilattice (a b c : float) :
  distinct_zeros a b = false -> distinct_zeros b c = false ->
  distinct_zeros a c = false ->
  sdfUnion a b = sdfUnion b a
  /\ sdfUnion (sdfUnion a b) c = sdfUnion a (sdfUnion b c)
  /\ sdfUnion a a = a
  /\ sdfIntersection a b = sdfIntersection b a
  /\ sdfIntersection (sdfIntersection a b) c
     = sdfIntersection a (sdfIntersection b c)
  /\ sdfIntersection a a = a.
Proof.
  intros Hab Hbc Hac.
  unfold sdfUnion, sdfIntersection. cbn [fminf fmaxf ops].
  split; [apply b32_fminf_comm; exact Hab|].
  split; [apply b32_fminf_assoc; assumption|].
  split; [rewrite b32_fminf_key; destruct (key_ltb (key a) (key a)); reflexivity|].
  rewrite !b32_fmaxf_dual, !SFopp_involutive.
  split; [f_equal; apply b32_fminf_comm; rewrite distinct_zeros_opp; exact Hab|].
  split; [f_equal; apply b32_fminf_assoc; rewrite distinct_zeros_opp; assumption|].
  rewrite b32_fminf_key.
  destruct (key_ltb (key (SFopp a)) (key (SFopp a))); apply SFopp_involutive.
Qed.

(** Witness of X2 at the distances 1, 2 and 3. *)
Lemma union_intersection_semilattice_witness :
  let a : float := flit 1 1 in
  let b : float := flit 2 1 in
  let c : float := flit 3 1 in
  sdfUnion a b = sdfUnion b a
  /\ sdfUnion (sdfUnion a b) c = sdfUnion a (sdfUnion b c)
  /\ sdfUnion a a = a
  /\ sdfIntersection a b = sdfIntersection b a
  /\ sdfIntersection (sdfIntersection a b) c
     = sdfIntersection a (sdfIntersection b c)
  /\ sdfIntersection a a = a.
Proof.
  apply (@union_intersection_semilattice (flit 1 1) (flit 2 1) (flit 3 1));
    vm_compute; reflexivity.
Defined.
End B32Algebra.

(** ** Binary32: the floor bounds both scenes *)

Section B32Floor.
Import B32.
Local Open Scope fl_scope.

Lemma SFleb_inv (a b : float) :
  SFleb a b = true ->
  is_nan a = false /\ is_nan b = false /\ SFltb b a = false.
Proof.
  unfold SFleb, SFltb. destruct (SFcompare a b) as [c|] eqn:E; [|discriminate].
  rewrite (SFcompare_antisym _ _ E).
  destruct a, b; try discriminate; destruct c; try discriminate; auto.
Qed.

Lemma SFleb_SFltb_trans (a b c : float) :
  SFleb a b = true -> SFltb b c = true -> SFltb a c = true.
Proof.
  intros Hab Hbc.
  destruct (SFleb_inv _ _ Hab) as (Na & Nb & Hba).
  destruct (SFltb_not_nan _ _ Hbc) as [_ Nc].
  rewrite (SFltb_key _ _ Nb Na) in Hba. rewrite (SFltb_key _ _ Nb Nc) in Hbc.
  rewrite (SFltb_key _ _ Na Nc).
  apply key_ltb_false in Hba. apply key_ltb_spec in Hbc. apply key_ltb_spec.
  destruct (key_lt_cases (key a) (key b)) as [H|[H|H]].
  - exact (key_lt_trans H Hbc).
  - rewrite H. exact Hbc.
  - contradiction.
Qed.

(** The union with a distance that is a number never exceeds it. *)
Lemma b32_fminf_le_r (a b : float) :
  is_nan b = false -> SFleb (b32_fminf a b) b = true.
Proof.
  intros Nb. destruct (is_nan a) eqn:Na.
  - destruct a; try discriminate. cbn [b32_fminf]. apply SFleb_refl. exact Nb.
  - apply (b32_fminf_glb a b Na Nb).
Qed.

(** X3. Wherever the floor distance is a number, neither scene reports a
    larger distance than the floor's, whatever the math library computes; in
    particular a point below the floor gets a negative distance. *)
Theorem scenes_bounded_by_floor (p : float3 float) :
  is_nan (ground_plane p) = false ->
  SFleb (sphereScene p) (ground_plane p) = true
  /\ (forall lm : Libm float, SFleb (mandelbulbScene p) (ground_plane p) = true)
  /\ (SFltb (ground_plane p) (flit 0 1) = true ->
      SFltb (sphereScene p) (flit 0 1) = true
      /\ forall lm : Libm float, SFltb (mandelbulbScene p) (flit 0 1) = true).
Proof.
  intros Np.
  assert (Hs : SFleb (sphereScene p) (ground_plane p) = true)
    by (rewrite sphereScene_union; apply b32_fminf_le_r; exact Np).
  assert (Hm : forall lm : Libm float,
             SFleb (mandelbulbScene p) (ground_plane p) = true)
    by (intros lm; rewrite mandelbulbScene_union; apply b32_fminf_le_r; exact Np).
  split; [exact Hs|]. split; [exact Hm|].
  intros Hneg. split.
  - exact (SFleb_SFltb_trans _ _ _ Hs Hneg).
  - intros lm. exact (SFleb_SFltb_trans _ _ _ (Hm lm) Hneg).
Qed.

(** Witness of X3 at the point (1,-3,1), one unit below the floor. *)
Lemma scenes_bounded_by_floor_witness :
  let p : float3 float := make_float3 (flit 1 1) (- flit 3 1) (flit 1 1) in
  SFleb (sphereScene p) (ground_plane p) = true
  /\ (forall lm : Libm float, SFleb (mandelbulbScene p) (ground_plane p) = true)
  /\ (SFltb (ground_plane p) (flit 0 1) = true ->
      SFltb (sphereScene p) (flit 0 1) = true
      /\ forall lm : Libm float, SFltb (mandelbulbScene p) (flit 0 1) = true).
Proof.
  apply (@scenes_bounded_by_floor
           (make_float3 (flit 1 1) (- flit 3 1) (flit 1 1))).
  vm_compute. reflexivity.
Defined.
End B32Floor.

(** ** One turn of the loop *)

Section LoopUnfold.
Context {F : Type} {ops : FloatOps F} {lm : Libm F}.
Local Open Scope fl_scope.

Lemma mandelbulb_loop_unfold (n : nat) (pos : float3 F) (bail power : F)
      (z : float3 F) (dr r : F) :
  mandelbulb_loop (S n) pos bail power z dr r
  = if length z >? bail then (dr, length z)
    else mandelbulb_loop n pos bail power
           (fst (mandelbulb_body pos power z (length z) dr))
           (snd (mandelbulb_body pos power z (length z) dr))
           (length z).
Proof.
  cbn [mandelbulb_loop].
  destruct (mandelbulb_body pos power z (length z) dr). reflexivity.
Qed.
End LoopUnfold.

(** ** Binary32: non-finite coordinates and the singular origin *)

Section B32Edge.
Import B32.
Local Open Scope fl_scope.

Lemma SFadd_nan_r (a : float) : SFadd prec emax a S754_nan = S754_nan.
Proof. destruct a as [[]|[]| |[] ? ?]; reflexivity. Qed.

Lemma SFmul_nan_r (a : float) : SFmul prec emax a S754_nan = S754_nan.
Proof. destruct a as [[]|[]| |[] ? ?]; reflexivity. Qed.

Lemma SFltb_nan_r (a : float) : SFltb a S754_nan = false.
Proof. destruct a as [[]|[]| |[] ? ?]; reflexivity. Qed.

Lemma fmodf_nonfinite (a b : float) :
  is_finite a = false -> b32_fmodf a b = S754_nan.
Proof. destruct a as [?|?| |? ? ?]; try discriminate; destruct b; reflexivity. Qed.

(** A vector with a NaN component has a NaN norm. *)
Lemma length_nan_x (b c : float) : length (make_float3 S754_nan b c) = S754_nan.
Proof. reflexivity. Qed.

Lemma length_nan_z (a b : float) : length (make_float3 a b S754_nan) = S754_nan.
Proof.
  unfold length, dot. cbn [fx fy fz fadd fmul sqrtf ops].
  cbn [SFmul]. rewrite SFadd_nan_r. reflexivity.
Qed.

Lemma lattice_nonfinite_x (nx nz : bool) (x y z : float) :
  is_finite x = false -> lattice nx nz (make_float3 x y z) = S754_nan.
Proof.
  intros Hx. unfold lattice. cbn [fx fy fz fmodf fneg fsub ops].
  rewrite (@fmodf_nonfinite x _ Hx).
  replace (SFsub prec emax (if nx then SFopp S754_nan else S754_nan) (flit 1 1))
    with S754_nan by (destruct nx; reflexivity).
  reflexivity.
Qed.

Lemma lattice_nonfinite_z (nx nz : bool) (x y z : float) :
  is_finite z = false -> lattice nx nz (make_float3 x y z) = S754_nan.
Proof.
  intros Hz. unfold lattice. cbn [fx fy fz fmodf fneg fsub ops].
  rewrite (@fmodf_nonfinite z _ Hz).
  replace (SFsub prec emax (if nz then SFopp S754_nan else S754_nan) (flit 1 1))
    with S754_nan by (destruct nz; reflexivity).
  unfold dot. cbn [fx fy fz fadd fmul sqrtf ops].
  cbn [SFmul]. rewrite SFadd_nan_r. reflexivity.
Qed.

Lemma ground_plane_nonfinite (x y z : float) :
  is_finite x = false \/ is_finite z = false ->
  ground_plane (make_float3 x y z) = S754_nan.
Proof.
  intros H. unfold ground_plane, dot, vsub. cbn [fx fy fz fadd fsub fmul fneg ops].
  change (flit 0 1 : float) with (S754_zero false).
  destruct H as [H|H].
  - replace (SFmul prec emax (SFsub prec emax x (S754_zero false)) (S754_zero false))
      with S754_nan
      by (destruct x as [?|[]| |? ? ?]; try discriminate; reflexivity).
    reflexivity.
  - replace (SFmul prec emax (SFsub prec emax z (S754_zero false)) (S754_zero false))
      with S754_nan
      by (destruct z as [?|[]| |? ? ?]; try discriminate; reflexivity).
    apply SFadd_nan_r.
Qed.

(** X4. A NaN or infinite abscissa or depth poisons the sphere scene: every
    lattice remainder and the plane term become NaN, the scene distance is
    NaN, and the sampler, whose comparison then fails, returns the spheres'
    grey. *)
Theorem sphereScene_nonfinite (x y z : float) :
  is_finite x = false \/ is_finite z = false ->
  sphereScene (make_float3 x y z) = S754_nan
  /\ sphereColor (make_float3 x y z)
     = make_float3 (flit 85 100) (flit 85 100) (flit 85 100).
Proof.
  intros H.
  assert (Hl : forall nx nz, lattice nx nz (make_float3 x y z) = S754_nan)
    by (intros nx nz; destruct H;
        [apply lattice_nonfinite_x | apply lattice_nonfinite_z]; assumption).
  rewrite sphereScene_union, sphereColor_select.
  unfold lattice_spheres. rewrite !Hl, (@ground_plane_nonfinite x y z H).
  split; reflexivity.
Qed.

(** Witness of X4 at a point of infinite abscissa. *)
Lemma sphereScene_nonfinite_witness :
  sphereScene (make_float3 (S754_infinity false) (flit 0 1) (flit 0 1))
  = S754_nan
  /\ sphereColor (make_float3 (S754_infinity false) (flit 0 1) (flit 0 1))
     = make_float3 (flit 85 100) (flit 85 100) (flit 85 100).
Proof.
  apply (@sphereScene_nonfinite (S754_infinity false) (flit 0 1) (flit 0 1)).
  left. reflexivity.
Defined.

Section Singular.
Context {lm : Libm float}.
Hypothesis asinf_nan : asinf S754_nan = S754_nan.
Hypothesis sinf_nan : sinf S754_nan = S754_nan.

(** When the quotient [z.z / r] is NaN, so is the third component of the
    next iterate. *)
Lemma mandelbulb_body_nan (pos : float3 float) (power : float)
      (z : float3 float) (r dr : float) :
  SFdiv prec emax (fz z) r = S754_nan ->
  fz (fst (mandelbulb_body pos power z r dr)) = S754_nan.
Proof.
  intros Hq. unfold mandelbulb_body, vadd, smulv.
  cbn [fst fx fy fz fadd fmul fdiv ops].
  rewrite Hq, asinf_nan. cbn [SFmul]. rewrite sinf_nan, SFmul_nan_r.
  reflexivity.
Qed.

(** Once the third component of the iterate is NaN it stays NaN, the
    bailout test never fires, and the radius the loop returns is NaN as soon
    as one more test is made. *)
Lemma mandelbulb_loop_nan (pos : float3 float) (bail power : float) (n : nat) :
  forall (z : float3 float) (dr r : float),
    fz z = S754_nan ->
    snd (mandelbulb_loop n pos bail power z dr r)
    = match n with O => r | S _ => S754_nan end.
Proof.
  induction n as [|n IH]; intros z dr r Hz; [reflexivity|].
  rewrite mandelbulb_loop_unfold.
  assert (Hlen : length z = S754_nan)
    by (destruct z as [a b c]; cbn [fz] in Hz; subst c; apply length_nan_z).
  rewrite Hlen. cbn [fltb ops]. rewrite SFltb_nan_r.
  rewrite IH.
  - destruct n; reflexivity.
  - apply mandelbulb_body_nan. rewrite Hz. reflexivity.
Qed.

(** At a point whose three components are zeros the first radius is 0, the
    division [z.z / r] is 0/0, and from the second test on the radius is
    NaN: the estimate is NaN. *)
Lemma mandelbulb_zero_point (sx sy sz : bool) (n : nat) (bail power : float) :
  SFltb bail (S754_zero false) = false ->
  mandelbulb (make_float3 (S754_zero sx) (S754_zero sy) (S754_zero sz))
             (Z.of_nat (S (S n))) bail power
  = S754_nan.
Proof.
  intros Hb. unfold mandelbulb. rewrite Nat2Z.id.
  rewrite mandelbulb_loop_unfold.
  assert (Hlen : length (make_float3 (S754_zero sx) (S754_zero sy) (S754_zero sz))
                 = S754_zero false)
    by (destruct sx, sy, sz; reflexivity).
  rewrite Hlen. cbn [fltb ops]. rewrite Hb.
  match goal with
  | |- context [mandelbulb_loop ?k ?p ?b ?w ?z ?d ?r] =>
      pose proof (@mandelbulb_loop_nan p b w k z d r) as Hn;
      destruct (mandelbulb_loop k p b w z d r) as [dr' r'] eqn:El
  end.
  cbn [snd] in Hn. rewrite Hn.
  - cbn [fmul fdiv ops]. rewrite SFmul_nan_r. reflexivity.
  - apply mandelbulb_body_nan. destruct sz; reflexivity.
Qed.
End Singular.

(** X5. The singular origin: with a math library whose [asin] and [sin]
    propagate NaN, the estimator returns NaN at every point whose components
    are zeros, as soon as it may run two iterations and the bailout is not
    negative; the Mandelbulb scene at the origin then reports the floor
    distance 2, the NaN fractal term being dropped by the union, and the
    sampler returns the fractal colour. *)
Theorem mandelbulb_at_origin (lm : Libm float) (sx sy sz : bool)
        (iterations : Z) (bail power : float) :
  asinf S754_nan = S754_nan ->
  sinf S754_nan = S754_nan ->
  (2 <= iterations)%Z ->
  SFltb bail (S754_zero false) = false ->
  mandelbulb (make_float3 (S754_zero sx) (S754_zero sy) (S754_zero sz))
             iterations bail power = S754_nan
  /\ mandelbulbScene (make_float3 (flit 0 1) (flit 0 1) (flit 0 1)) = flit 2 1
  /\ mandelbulbColor (make_float3 (flit 0 1) (flit 0 1) (flit 0 1))
     = make_float3 (flit 85 100) (flit 1 1) (flit 0 1).
Proof.
  intros Ha Hs Hit Hb.
  assert (Hmb : forall n b w, SFltb b (S754_zero false) = false ->
            mandelbulb (make_float3 (S754_zero sx) (S754_zero sy) (S754_zero sz))
                       (Z.of_nat (S (S n))) b w = S754_nan)
    by (intros n b w H; exact (@mandelbulb_zero_point lm Ha Hs sx sy sz n b w H)).
  split.
  - replace iterations with (Z.of_nat (S (S (Z.to_nat (iterations - 2))))) by lia.
    apply Hmb. exact Hb.
  - assert (Hf : fractal_term (make_float3 (flit 0 1) (flit 0 1) (flit 0 1))
                 = S754_nan).
    { unfold fractal_term.
      change (vdivs (make_float3 (flit 0 1) (flit 0 1) (flit 0 1)) (flit 23 10))
        with (make_float3 (S754_zero false) (S754_zero false) (S754_zero false)
              : float3 float).
      assert (H4 : SFltb (flit 4 1) (S754_zero false) = false)
        by (vm_compute; reflexivity).
      rewrite (@mandelbulb_zero_point lm Ha Hs false false false 6
                 (flit 4 1) (flit 8 1) H4).
      reflexivity. }
    assert (Hg : ground_plane (make_float3 (flit 0 1) (flit 0 1) (flit 0 1)
                               : float3 float) = flit 2 1)
      by (vm_compute; reflexivity).
    rewrite mandelbulbScene_union, mandelbulbColor_select, Hf, Hg.
    split; reflexivity.
Qed.

(** Witness of X5 with the pass-through library, 8 iterations, bailout 4. *)
Lemma mandelbulb_at_origin_witness :
  mandelbulb (lm := passthrough_libm)
             (make_float3 (S754_zero false) (S754_zero false) (S754_zero false))
             8 (flit 4 1) (flit 8 1) = S754_nan
  /\ mandelbulbScene (lm := passthrough_libm)
                     (make_float3 (flit 0 1) (flit 0 1) (flit 0 1)) = flit 2 1
  /\ mandelbulbColor (lm := passthrough_libm)
                     (make_float3 (flit 0 1) (flit 0 1) (flit 0 1))
     = make_float3 (flit 85 100) (flit 1 1) (flit 0 1).
Proof.
  apply (@mandelbulb_at_origin passthrough_libm false false false
                               8 (flit 4 1) (flit 8 1));
    try reflexivity.
  lia.
Defined.

(** X6. With no iteration to run ([iterations <= 0]) the estimator ignores
    the point, the bailout and the power and returns [0.5 * log(0) * 0 / 1];
    it is NaN when [log(0)] is minus infinity. *)
Theorem mandelbulb_no_iterations (lm : Libm float) (pos : float3 float)
        (iterations : Z) (bail power : float) :
  (iterations <= 0)%Z ->
  mandelbulb pos iterations bail power
  = flit 5 10 * logf (flit 0 1) * flit 0 1 / flit 1 1
  /\ (logf (flit 0 1) = S754_infinity true ->
      mandelbulb pos iterations bail power = S754_nan).
Proof.
  intros Hit. unfold mandelbulb.
  replace (Z.to_nat iterations) with 0%nat by lia.
  cbn [mandelbulb_loop]. split; [reflexivity|].
  intros Hlog. rewrite Hlog. reflexivity.
Qed.

(** Witness of X6 with the pass-through library and no iterations. *)
Lemma mandelbulb_no_iterations_witness :
  mandelbulb (lm := passthrough_libm)
             (make_float3 (flit 1 1) (flit 1 1) (flit 1 1)) 0 (flit 4 1) (flit 8 1)
  = flit 5 10 * logf (Libm := passthrough_libm) (flit 0 1) * flit 0 1 / flit 1 1
  /\ (logf (Libm := passthrough_libm) (flit 0 1 : float) = S754_infinity true ->
      mandelbulb (lm := passthrough_libm)
                 (make_float3 (flit 1 1) (flit 1 1) (flit 1 1)) 0
                 (flit 4 1) (flit 8 1) = S754_nan).
Proof.
  apply (@mandelbulb_no_iterations passthrough_libm
           (make_float3 (flit 1 1) (flit 1 1) (flit 1 1)) 0 (flit 4 1) (flit 8 1)).
  lia.
Defined.
End B32Edge.

(** ** Exact arithmetic: safe marching steps *)

Section RealLipschitz.
Import RealModel.
Local Open Scope R_scope.

(** Cauchy-Schwarz in three dimensions. *)
Lemma dot_le_lengths (a b : float3 R) : dot a b <= length a * length b.
Proof.
  rewrite !length_R. unfold dot. cbn [fadd fmul ops].
  destruct a as [a1 a2 a3], b as [b1 b2 b3]. cbn [fx fy fz].
  set (d := a1 * b1 + a2 * b2 + a3 * b3).
  set (A := a1 * a1 + a2 * a2 + a3 * a3).
  set (B := b1 * b1 + b2 * b2 + b3 * b3).
  assert (HA : 0 <= A) by (unfold A; nra).
  assert (HB : 0 <= B) by (unfold B; nra).
  rewrite <- sqrt_mult by assumption.
  destruct (Rle_dec d 0) as [Hd|Hd].
  - pose proof (sqrt_pos (A * B)). lra.
  - rewrite <- (sqrt_square d) by lra.
    apply sqrt_le_1_alt. unfold d, A, B.
    pose proof (Rle_0_sqr (a1 * b2 - a2 * b1)).
    pose proof (Rle_0_sqr (a1 * b3 - a3 * b1)).
    pose proof (Rle_0_sqr (a2 * b3 - a3 * b2)).
    unfold Rsqr in *. nra.
Qed.

Lemma length_sqr (a : float3 R) : length a * length a = dot a a.
Proof.
  rewrite length_R. unfold dot. cbn [fadd fmul ops].
  apply sqrt_sqrt. nra.
Qed.

(** The triangle inequality of the norm. *)
Lemma length_triangle (a b : float3 R) : length (vadd a b) <= length a + length b.
Proof.
  pose proof (length_R_nonneg a) as Ha. pose proof (length_R_nonneg b) as Hb.
  pose proof (length_R_nonneg (vadd a b)) as Hab.
  pose proof (dot_le_lengths a b) as Hcs.
  pose proof (length_sqr a) as Sa. pose proof (length_sqr b) as Sb.
  pose proof (length_sqr (vadd a b)) as Sab.
  assert (Hexp : dot (vadd a b) (vadd a b) = dot a a + 2 * dot a b + dot b b).
  { unfold dot, vadd. cbn [fx fy fz fadd fmul ops]. ring. }
  rewrite Hexp in Sab.
  apply Rsqr_incr_0_var; [|lra]. unfold Rsqr. nra.
Qed.

Lemma length_vsub_sym (p q : float3 R) : length (vsub p q) = length (vsub q p).
Proof.
  rewrite !length_R. unfold vsub. cbn [fx fy fz fsub ops]. f_equal. ring.
Qed.

Lemma length_reverse_triangle (p q : float3 R) :
  Rabs (length p - length q) <= dist3 p q.
Proof.
  unfold dist3.
  assert (Hp : length p <= length (vsub p q) + length q).
  { replace p with (vadd (vsub p q) q) at 1; [apply length_triangle|].
    destruct p, q. unfold vadd, vsub. cbn [fx fy fz fadd fsub ops].
    f_equal; ring. }
  assert (Hq : length q <= length (vsub q p) + length p).
  { replace q with (vadd (vsub q p) p) at 1; [apply length_triangle|].
    destruct p, q. unfold vadd, vsub. cbn [fx fy fz fadd fsub ops].
    f_equal; ring. }
  rewrite (length_vsub_sym q p) in Hq.
  unfold Rabs. destruct (Rcase_abs _); lra.
Qed.

Lemma sdfPlane_unit_lipschitz (n p q : float3 R) :
  length n = 1 -> Rabs (sdfPlane p n - sdfPlane q n) <= dist3 p q.
Proof.
  intros Hn. unfold sdfPlane, dist3.
  pose proof (dot_le_lengths (vsub p q) n) as H1.
  pose proof (dot_le_lengths (vsub q p) n) as H2.
  rewrite (length_vsub_sym q p), Hn in H2. rewrite Hn in H1.
  assert (E1 : dot (vsub p q) n = dot p n - dot q n)
    by (unfold dot, vsub; cbn [fx fy fz fadd fsub fmul ops]; ring).
  assert (E2 : dot (vsub q p) n = dot q n - dot p n)
    by (unfold dot, vsub; cbn [fx fy fz fadd fsub fmul ops]; ring).
  unfold Rabs. destruct (Rcase_abs _); lra.
Qed.

Lemma Rmin_nonexpansive (a b c d e : R) :
  Rabs (a - c) <= e -> Rabs (b - d) <= e -> Rabs (Rmin a b - Rmin c d) <= e.
Proof.
  unfold Rabs, Rmin.
  repeat destruct (Rcase_abs _); repeat destruct (Rle_dec _ _); lra.
Qed.

Lemma Rmax_nonexpansive (a b c d e : R) :
  Rabs (a - c) <= e -> Rabs (b - d) <= e -> Rabs (Rmax a b - Rmax c d) <= e.
Proof.
  unfold Rabs, Rmax.
  repeat destruct (Rcase_abs _); repeat destruct (Rle_dec _ _); lra.
Qed.

(** X14. In exact arithmetic the three combinators keep step sizes safe:
    the union, the intersection and the difference of two fields that change
    by no more than the distance moved change by no more than it either. *)
Theorem combinators_preserve_lipschitz (f g : float3 R -> R) :
  lipschitz1 f -> lipschitz1 g ->
  lipschitz1 (fun p => sdfUnion (f p) (g p))
  /\ lipschitz1 (fun p => sdfIntersection (f p) (g p))
  /\ lipschitz1 (fun p => sdfDifference (f p) (g p)).
Proof.
  intros Hf Hg. split; [|split]; intros p q.
  - apply Rmin_nonexpansive; [apply Hf | apply Hg].
  - apply Rmax_nonexpansive; [apply Hf | apply Hg].
  - unfold sdfDifference. cbn [fmaxf fneg ops].
    apply Rmax_nonexpansive; [|apply Hg].
    replace (- f p - - f q) with (- (f p - f q)) by ring.
    rewrite Rabs_Ropp. apply Hf.
Qed.

(** Witness of X14 for a sphere of radius 1 and the floor. *)
Lemma combinators_preserve_lipschitz_witness :
  lipschitz1 (fun p => sdfUnion (sdfSphere p 1) (ground_plane p))
  /\ lipschitz1 (fun p => sdfIntersection (sdfSphere p 1) (ground_plane p))
  /\ lipschitz1 (fun p => sdfDifference (sdfSphere p 1) (ground_plane p)).
Proof.
  apply (@combinators_preserve_lipschitz
           (fun p => sdfSphere p 1) ground_plane).
  - intros p q. unfold sdfSphere. cbn [fsub ops].
    replace (length p - 1 - (length q - 1)) with (length p - length q) by ring.
    apply length_reverse_triangle.
  - intros p q. rewrite !ground_plane_R.
    replace (fy p + 2 - (fy q + 2)) with (sdfPlane p (make_float3 0 1 0)
                                          - sdfPlane q (make_float3 0 1 0))
      by (unfold sdfPlane, dot; cbn [fx fy fz fadd fmul ops]; ring).
    apply sdfPlane_unit_lipschitz. rewrite length_R. cbn [fx fy fz].
    replace (0 * 0 + 1 * 1 + 0 * 0) with 1 by ring. apply sqrt_1.
Defined.
End RealLipschitz.

(** * The far field, the sign of the estimate and the mirror symmetry on binary32 *)

(** ** Binary32: signs through the rounded operations *)

Section B32Signs.
Import B32.
Local Open Scope Z_scope.

Lemma shr_fexp_exp_ge (m e : Z) (l : location) :
  e <= snd (shr_fexp prec emax m e l).
Proof.
  unfold shr_fexp, shr.
  destruct (fexp prec emax (Zdigits2 m + e) - e) eqn:E; cbn [snd]; lia.
Qed.

(** Rounding a mantissa whose value reaches [2^emin] gives a float of the
    sign asked for, not zero, whose exponent is neither below [emin] nor
    below the exponent rounded. *)
Lemma binary_round_aux_signed (s : bool) (m e : Z) (l : location) :
  0 < m ->
  (e < emin prec emax -> 2 ^ (emin prec emax - e) <= m) ->
  match binary_round_aux prec emax s m e l with
  | S754_finite s' _ e' => s' = s /\ emin prec emax <= e' /\ e <= e'
  | S754_infinity s' => s' = s
  | _ => False
  end.
Proof.
  intros Hm Hlow. unfold binary_round_aux.
  destruct (shr_fexp_pos l Hm Hlow) as [H1 H1e].
  pose proof (shr_fexp_exp_ge m e l) as G1.
  destruct (shr_fexp prec emax m e l) as [r1 e1]. cbn [fst snd] in H1, H1e, G1.
  assert (H2 : 0 < round_nearest_even (shr_m r1) (loc_of_shr_record r1))
    by (pose proof (round_nearest_even_ge (shr_m r1) (loc_of_shr_record r1)); lia).
  assert (H2e : e1 < emin prec emax ->
                2 ^ (emin prec emax - e1)
                <= round_nearest_even (shr_m r1) (loc_of_shr_record r1))
    by (intros H; exfalso; apply (Z.lt_irrefl e1); eapply Z.lt_le_trans; eassumption).
  destruct (shr_fexp_pos loc_Exact H2 H2e) as [H3 H3e].
  pose proof (shr_fexp_exp_ge
                (round_nearest_even (shr_m r1) (loc_of_shr_record r1))
                e1 loc_Exact) as G2.
  destruct (shr_fexp prec emax _ e1 loc_Exact) as [r2 e2].
  cbn [fst snd] in H3, H3e, G2.
  destruct (shr_m r2) as [|q|q]; try lia.
  destruct (e2 <=? emax - prec); [repeat split; lia | reflexivity].
Qed.

(** Rounding with the positive sign never gives a value below zero. *)
Lemma binary_round_aux_not_negative (m e : Z) (l : location) :
  is_negative (binary_round_aux prec emax false m e l) = false.
Proof.
  unfold binary_round_aux.
  destruct (shr_fexp prec emax m e l) as [r1 e1].
  destruct (shr_fexp prec emax _ e1 loc_Exact) as [r2 e2].
  destruct (shr_m r2); try reflexivity.
  destruct (e2 <=? emax - prec); reflexivity.
Qed.

Lemma SFmul_not_negative (a b : float) :
  is_negative a = false -> is_negative b = false ->
  is_negative (SFmul prec emax a b) = false.
Proof.
  destruct a as [sa|[]| |[] ma ea], b as [sb|[]| |[] mb eb];
    try discriminate; intros _ _; try reflexivity.
  cbn [SFmul xorb]. apply binary_round_aux_not_negative.
Qed.

(** A quotient by a divisor above zero (or NaN) is below zero only when the
    dividend is; a zero divisor is left out, as [x / -0] is minus infinity. *)
Lemma SFdiv_not_negative (a b : float) :
  is_negative a = false -> positive_or_nan b = true ->
  is_negative (SFdiv prec emax a b) = false.
Proof.
  destruct a as [[]|[]| |[] ma ea], b as [sb|[]| |[] mb eb];
    try discriminate; intros _ _; try reflexivity.
  cbn [SFdiv xorb].
  destruct (SFdiv_core_binary prec emax (Zpos ma) ea (Zpos mb) eb) as [[mz ez] lz].
  apply binary_round_aux_not_negative.
Qed.

Lemma positive_above_not_negative (k : Z) (a : float) :
  positive_above k a -> is_negative a = false.
Proof. destruct a as [?|[]| |[] ? ?]; cbn; intros H; (reflexivity || contradiction). Qed.

Lemma positive_above_SFltb (k : Z) (a : float) :
  positive_above k a -> SFltb (S754_zero false) a = true.
Proof. destruct a as [?|[]| |[] ? ?]; cbn; intros H; (reflexivity || contradiction). Qed.

Lemma positive_above_weaken (k k' : Z) (a : float) :
  k' <= k -> positive_above k a -> positive_above k' a.
Proof. destruct a as [?|[]| |[] ? ?]; cbn; intros; auto; lia. Qed.

(** A float at least (above) a positive finite one is positive, with an
    exponent at least as large. *)
Lemma SFleb_positive_above (mc : positive) (ec : Z) (a : float) :
  SFleb (S754_finite false mc ec) a = true -> positive_above ec a.
Proof.
  destruct a as [?|[]| |[] m e]; cbn; try discriminate; auto.
  unfold SFleb. cbn.
  destruct (Z.compare_spec ec e) as [E|E|E]; intros Hc; try discriminate; lia.
Qed.

Lemma SFltb_positive_above (mc : positive) (ec : Z) (a : float) :
  SFltb (S754_finite false mc ec) a = true -> positive_above ec a.
Proof. intros H. apply SFleb_positive_above with mc. apply SFltb_SFleb. exact H. Qed.

(** The product of two positive floats whose exponents add up to [emin] at
    least is positive: it cannot underflow to zero. *)
Lemma SFmul_positive_above (ka kb : Z) (a b : float) :
  positive_above ka a -> positive_above kb b ->
  emin prec emax <= ka + kb ->
  positive_above (ka + kb) (SFmul prec emax a b).
Proof.
  destruct a as [?|[]| |[] ma ea], b as [?|[]| |[] mb eb];
    cbn [positive_above]; try contradiction; intros Ha Hb Hk;
    cbn [SFmul xorb positive_above]; auto.
  assert (Hlow : ea + eb < emin prec emax ->
                 2 ^ (emin prec emax - (ea + eb)) <= Zpos (ma * mb)) by lia.
  pose proof (@binary_round_aux_signed false (Zpos (ma * mb)) (ea + eb) loc_Exact
                eq_refl Hlow) as H.
  destruct (binary_round_aux prec emax false (Zpos (ma * mb)) (ea + eb) loc_Exact)
    as [?|s'| |s' m' e']; try contradiction.
  - rewrite H. exact I.
  - destruct H as (-> & _ & He). cbn [positive_above]. lia.
Qed.

(** The product of a positive float by a positive constant whose mantissa
    makes up for its exponent is positive. *)
Lemma SFmul_const_positive (a : float) (mc : positive) (ec : Z) :
  positive_above (emin prec emax) a ->
  ec <= 0 -> 2 ^ (- ec) <= Zpos mc ->
  positive_above (emin prec emax) (SFmul prec emax a (S754_finite false mc ec)).
Proof.
  destruct a as [?|[]| |[] ma ea]; cbn [positive_above]; try contradiction;
    intros Ha Hec Hmc; cbn [SFmul xorb positive_above]; auto.
  assert (Hlow : ea + ec < emin prec emax ->
                 2 ^ (emin prec emax - (ea + ec)) <= Zpos (ma * mc)).
  { intros Hlt. rewrite Pos2Z.inj_mul.
    apply Z.le_trans with (2 ^ (- ec)).
    - apply Z.pow_le_mono_r; lia.
    - pose proof (Z.pow_pos_nonneg 2 (- ec)). nia. }
  pose proof (@binary_round_aux_signed false (Zpos (ma * mc)) (ea + ec) loc_Exact
                eq_refl Hlow) as H.
  destruct (binary_round_aux prec emax false (Zpos (ma * mc)) (ea + ec) loc_Exact)
    as [?|s'| |s' m' e']; try contradiction.
  - rewrite H. exact I.
  - destruct H as (-> & He & _). exact He.
Qed.

(** Dividing a positive float by one leaves it positive. *)
Lemma SFdiv_one_positive (a : float) :
  positive_above (emin prec emax) a ->
  positive_above (emin prec emax)
                 (SFdiv prec emax a (S754_finite false 8388608 (-23))).
Proof.
  destruct a as [?|[]| |[] m e]; cbn [positive_above]; try contradiction;
    intros He; cbn [SFdiv xorb positive_above]; auto.
  unfold SFdiv_core_binary. cbn [Zdigits2].
  assert (Hd := digits2_lower m).
  set (d := Zpos (digits2_pos m)) in *.
  assert (Hd1 : 1 <= d) by (unfold d; lia).
  change (Zpos (digits2_pos 8388608)) with 24.
  set (e' := Z.min (fexp prec emax (d + e - (24 + -23))) (e - -23)).
  assert (He' : emin prec emax <= e'
                /\ (e' <= d + e - 25 \/ e' <= emin prec emax) /\ e' <= e + 23)
    by (unfold e', fexp, emin, prec, emax in *; lia).
  destruct He' as (Hlo & Hup & Hs).
  set (m' := match e - -23 - e' with
             | 0 => Zpos m
             | Zpos _ => Z.shiftl (Zpos m) (e - -23 - e')
             | Zneg _ => 0
             end).
  assert (Hm' : 8388608 <= m').
  { unfold m'. unfold emin, prec, emax in *.
    destruct (e - -23 - e') as [|s|s] eqn:Es.
    - assert (Hbig : 23 <= d - 1) by lia.
      apply Z.le_trans with (2 ^ (d - 1)); [|exact Hd].
      change 8388608 with (2 ^ 23). apply Z.pow_le_mono_r; lia.
    - rewrite Z.shiftl_mul_pow2 by lia.
      assert (Hbig : 23 <= (d - 1) + Zpos s) by lia.
      apply Z.le_trans with (2 ^ (d - 1) * 2 ^ Zpos s).
      + rewrite <- Z.pow_add_r by lia.
        change 8388608 with (2 ^ 23). apply Z.pow_le_mono_r; lia.
      + apply Z.mul_le_mono_nonneg_r; [apply Z.pow_nonneg; lia | exact Hd].
    - lia. }
  destruct (Z.div_eucl m' 8388608) as [q r] eqn:Eq.
  assert (Hq : 0 < q).
  { assert (q = m' / 8388608) by (unfold Z.div; rewrite Eq; reflexivity).
    subst q. apply Z.div_str_pos. lia. }
  assert (Hlow : e' < emin prec emax -> 2 ^ (emin prec emax - e') <= q) by lia.
  pose proof (@binary_round_aux_signed false q e' (new_location 8388608 r)
                Hq Hlow) as H.
  destruct (binary_round_aux prec emax false q e' (new_location 8388608 r))
    as [?|s'| |s' mq eq']; try contradiction.
  - rewrite H. exact I.
  - destruct H as (-> & Hmin & _). exact Hmin.
Qed.
End B32Signs.

(** ** Binary32: magnitudes through the rounded operations *)

Section B32Magnitude.
Import B32.
Local Open Scope Z_scope.

Lemma digits2_upper (p : positive) : Zpos p < 2 ^ Zpos (digits2_pos p).
Proof.
  induction p as [p IH|p IH|]; cbn [digits2_pos].
  - rewrite Pos2Z.inj_succ, Z.pow_succ_r by lia. lia.
  - rewrite Pos2Z.inj_succ, Z.pow_succ_r by lia. lia.
  - reflexivity.
Qed.

(** A mantissa reaching [2^n] has more than [n] digits. *)
Lemma digits2_ge (p : positive) (n : Z) :
  0 <= n -> 2 ^ n <= Zpos p -> n + 1 <= Zpos (digits2_pos p).
Proof.
  intros Hn H. pose proof (digits2_upper p) as U.
  destruct (Z.le_gt_cases (n + 1) (Zpos (digits2_pos p))) as [|Hlt]; [assumption|].
  exfalso. assert (2 ^ Zpos (digits2_pos p) <= 2 ^ n)
    by (apply Z.pow_le_mono_r; lia). lia.
Qed.

Lemma iter_xO (d m : positive) :
  Zpos (PosDef.Pos.iter xO m d) = Zpos m * 2 ^ Zpos d.
Proof.
  change (PosDef.Pos.iter xO m d) with (Pos.iter xO m d).
  induction d as [|d IH] using Pos.peano_ind.
  - cbn [Pos.iter]. lia.
  - rewrite Pos.iter_succ, Pos2Z.inj_succ, Z.pow_succ_r by lia.
    rewrite Pos2Z.inj_xO, IH. lia.
Qed.

(** Aligning to a lower exponent keeps the value. *)
Lemma shl_align_value (m : positive) (e e' : Z) :
  snd (shl_align m e e') <= e
  /\ Zpos (fst (shl_align m e e')) = Zpos m * 2 ^ (e - snd (shl_align m e e')).
Proof.
  unfold shl_align. destruct (e' - e) as [|d|d] eqn:E; cbn [fst snd].
  - rewrite Z.sub_diag. lia.
  - rewrite Z.sub_diag. lia.
  - split; [lia|]. rewrite iter_xO. f_equal. f_equal. lia.
Qed.

(** A mantissa of [24 + j] digits at least is shifted by [j] at least and
    keeps 24 digits. *)
Lemma shr_fexp_large (m e j : Z) (l : location) :
  0 <= j -> 2 ^ (23 + j) <= m -> emin prec emax <= e + j ->
  2 ^ 23 <= shr_m (fst (shr_fexp prec emax m e l))
  /\ e + j <= snd (shr_fexp prec emax m e l).
Proof.
  intros Hj Hm He. unfold shr_fexp, shr.
  assert (0 < 2 ^ (23 + j)) by (apply Z.pow_pos_nonneg; lia).
  destruct m as [|p|p]; try lia. cbn [Zdigits2].
  assert (Hd := digits2_lower p).
  assert (Hg := @digits2_ge p (23 + j) ltac:(lia) Hm).
  set (d := Zpos (digits2_pos p)) in *.
  unfold fexp, emin, prec, emax in *.
  destruct (Z.max (d + e - 24) (3 - 128 - 24) - e) as [|k|k] eqn:Ek;
    cbn [fst snd].
  - rewrite shr_m_of_loc. assert (j = 0) by lia. subst j. split; [exact Hm | lia].
  - rewrite shr_m_iter by (rewrite shr_m_of_loc; lia).
    rewrite shr_m_of_loc. split; [|lia].
    apply Z.div_le_lower_bound; [apply Z.pow_pos_nonneg; lia|].
    apply Z.le_trans with (2 ^ (d - 1)); [|exact Hd].
    rewrite <- Z.pow_add_r by lia. apply Z.pow_le_mono_r; lia.
  - lia.
Qed.

(** Rounding a mantissa of [24 + j] digits at least, well above the
    subnormal range: the result is an infinity or has a full mantissa and
    an exponent raised by [j] at least. *)
Lemma binary_round_aux_large (s : bool) (m e j : Z) (l : location) :
  0 <= j -> 2 ^ (23 + j) <= m -> emin prec emax <= e + j ->
  match binary_round_aux prec emax s m e l with
  | S754_finite s' m' e' => s' = s /\ 2 ^ 23 <= Zpos m' /\ e + j <= e'
  | S754_infinity s' => s' = s
  | _ => False
  end.
Proof.
  intros Hj Hm He. unfold binary_round_aux.
  destruct (@shr_fexp_large m e j l Hj Hm He) as [H1 H1e].
  destruct (shr_fexp prec emax m e l) as [r1 e1]. cbn [fst snd] in H1, H1e.
  assert (H2 : 2 ^ (23 + 0) <= round_nearest_even (shr_m r1) (loc_of_shr_record r1))
    by (pose proof (round_nearest_even_ge (shr_m r1) (loc_of_shr_record r1));
        rewrite Z.add_0_r; lia).
  assert (H2e : emin prec emax <= e1 + 0) by lia.
  destruct (@shr_fexp_large _ e1 0 loc_Exact (Z.le_refl 0) H2 H2e) as [H3 H3e].
  destruct (shr_fexp prec emax _ e1 loc_Exact) as [r2 e2].
  cbn [fst snd] in H3, H3e.
  assert (0 < 2 ^ 23) by lia.
  destruct (shr_m r2) as [|q|q]; try lia.
  destruct (e2 <=? emax - prec); [repeat split; lia | reflexivity].
Qed.

(** The same for a mantissa that is first aligned to its canonical
    exponent. *)
Lemma binary_round_large (s : bool) (p : positive) (e j : Z) :
  0 <= j -> 2 ^ (23 + j) <= Zpos p -> emin prec emax <= e + j ->
  match binary_round prec emax s p e with
  | S754_finite s' m' e' => s' = s /\ 2 ^ 23 <= Zpos m' /\ e + j <= e'
  | S754_infinity s' => s' = s
  | _ => False
  end.
Proof.
  intros Hj Hm He. unfold binary_round.
  destruct (shl_align_value p e (fexp prec emax (Zpos (digits2_pos p) + e)))
    as [Hs Hv].
  destruct (shl_align p e (fexp prec emax (Zpos (digits2_pos p) + e)))
    as [mz ez]. cbn [fst snd] in Hs, Hv.
  pose proof (@binary_round_aux_large s (Zpos mz) ez (j + (e - ez)) loc_Exact)
    as H.
  assert (Hm' : 2 ^ (23 + (j + (e - ez))) <= Zpos mz).
  { rewrite Hv. replace (23 + (j + (e - ez))) with ((23 + j) + (e - ez)) by lia.
    rewrite Z.pow_add_r by lia.
    apply Z.mul_le_mono_nonneg_r; [apply Z.pow_nonneg; lia | exact Hm]. }
  specialize (H ltac:(lia) Hm' ltac:(lia)).
  destruct (binary_round_aux prec emax s (Zpos mz) ez loc_Exact)
    as [?|s'| |s' m' e']; try contradiction; [exact H|].
  destruct H as (Hs' & Hm'' & He'). repeat split; [assumption..|lia].
Qed.
End B32Magnitude.

Section B32FarField.
Import B32.
Local Open Scope Z_scope.

Lemma shr_fexp_nonneg (m e : Z) (l : location) :
  0 <= m -> 0 <= shr_m (fst (shr_fexp prec emax m e l)).
Proof.
  intros Hm. unfold shr_fexp, shr.
  destruct (fexp prec emax (Zdigits2 m + e) - e) as [|k|k]; cbn [fst].
  - rewrite shr_m_of_loc. exact Hm.
  - rewrite shr_m_iter by (rewrite shr_m_of_loc; exact Hm).
    rewrite shr_m_of_loc. apply Z.div_pos; [exact Hm | apply Z.pow_pos_nonneg; lia].
  - rewrite shr_m_of_loc. exact Hm.
Qed.

(** Rounding a mantissa that is not negative gives a zero, a finite float or
    an infinity of the sign asked for. *)
Lemma binary_round_aux_sign (s : bool) (m e : Z) (l : location) :
  0 <= m ->
  match binary_round_aux prec emax s m e l with
  | S754_zero s' | S754_finite s' _ _ | S754_infinity s' => s' = s
  | S754_nan => False
  end.
Proof.
  intros Hm. unfold binary_round_aux.
  pose proof (@shr_fexp_nonneg m e l Hm) as H1.
  destruct (shr_fexp prec emax m e l) as [r1 e1]. cbn [fst] in H1.
  assert (H2 : 0 <= round_nearest_even (shr_m r1) (loc_of_shr_record r1))
    by (pose proof (round_nearest_even_ge (shr_m r1) (loc_of_shr_record r1)); lia).
  pose proof (@shr_fexp_nonneg _ e1 loc_Exact H2) as H3.
  destruct (shr_fexp prec emax _ e1 loc_Exact) as [r2 e2]. cbn [fst] in H3.
  destruct (shr_m r2) as [|q|q]; try lia; try reflexivity.
  destruct (e2 <=? emax - prec); reflexivity.
Qed.

Lemma div_eucl_nonneg (a b : Z) : 0 <= a -> 0 < b -> 0 <= fst (Z.div_eucl a b).
Proof.
  intros Ha Hb. change (fst (Z.div_eucl a b)) with (a / b).
  apply Z.div_pos; assumption.
Qed.

(** A canonical float of magnitude 32 at least has a full mantissa and an
    exponent of -18 at least. *)
Lemma far_coordinate_large (c : float) :
  valid c = true -> far_coordinate c = true -> large (-18) c.
Proof.
  unfold far_coordinate.
  change (flit 32 1) with (S754_finite false 8388608 (-18)).
  destruct c as [s|s| |s m e]; cbn [SFabs large]; try discriminate; auto.
  unfold valid. cbn [valid_binary]. unfold bounded, canonical_mantissa.
  intros Hv Hle. apply andb_prop in Hv. destruct Hv as [Hc _].
  apply Z.eqb_eq in Hc.
  pose proof (digits2_lower m) as Hd.
  unfold SFleb in Hle. cbn [SFcompare] in Hle.
  unfold fexp, emin, prec, emax in Hc.
  destruct (Z.compare_spec (-18) e) as [E|E|E].
  - subst e. split; [|lia].
    rewrite Pos.compare_cont_spec in Hle. cbn [Pos.switch_Eq] in Hle.
    destruct (Pos.compare_spec 8388608 m) as [P|P|P]; try discriminate.
    + subst m. reflexivity.
    + change (2 ^ 23) with 8388608. lia.
  - split; [|lia].
    apply Z.le_trans with (2 ^ (Zpos (digits2_pos m) - 1)); [|exact Hd].
    apply Z.pow_le_mono_r; lia.
  - discriminate.
Qed.

(** Dividing by 2.3f (below 4) loses two binary orders of magnitude at
    most. *)
Lemma SFdiv_large (k : Z) (a : float) :
  large k a -> emin prec emax + 2 <= k ->
  large (k - 2) (SFdiv prec emax a (S754_finite false 9646899 (-22))).
Proof.
  destruct a as [s|s| |s m e]; cbn [large SFdiv]; try contradiction; auto.
  intros [Hm He] Hk.
  unfold SFdiv_core_binary. cbn [Zdigits2].
  assert (Hd := digits2_lower m).
  assert (Hg := @digits2_ge m 23 ltac:(lia) Hm).
  set (d := Zpos (digits2_pos m)) in *.
  change (Zpos (digits2_pos 9646899)) with 24.
  set (e' := Z.min (fexp prec emax (d + e - (24 + -22))) (e - -22)).
  assert (He' : e' <= d + e - 26 /\ e' <= e + 22
                /\ (e' = d + e - 26 \/ e' = e + 22))
    by (unfold e', fexp, emin, prec, emax in *; lia).
  destruct He' as (H1 & H2 & H3).
  set (m' := match e - -22 - e' with
             | 0 => Zpos m
             | Zpos _ => Z.shiftl (Zpos m) (e - -22 - e')
             | Zneg _ => 0
             end).
  assert (Hm' : m' = Zpos m * 2 ^ (e + 22 - e')).
  { unfold m'. replace (e - -22 - e') with (e + 22 - e') by lia.
    destruct (e + 22 - e') as [|p|p] eqn:Es; try lia.
    rewrite Z.shiftl_mul_pow2 by lia. reflexivity. }
  clearbody m'.
  destruct (Z.div_eucl m' 9646899) as [q r] eqn:Eq.
  assert (Hq : q = m' / 9646899) by (unfold Z.div; rewrite Eq; reflexivity).
  assert (Hbig : 2 ^ (23 + (d + e - 26 - e')) <= q).
  { rewrite Hq. apply Z.div_le_lower_bound; [lia|].
    apply Z.le_trans with (2 ^ 24 * 2 ^ (23 + (d + e - 26 - e'))).
    - apply Z.mul_le_mono_nonneg_r; [apply Z.pow_nonneg; lia|].
      change (2 ^ 24) with 16777216. lia.
    - rewrite <- Z.pow_add_r by lia. rewrite Hm'.
      replace (24 + (23 + (d + e - 26 - e'))) with ((d - 1) + (e + 22 - e'))
        by lia.
      rewrite Z.pow_add_r by lia.
      apply Z.mul_le_mono_nonneg_r; [apply Z.pow_nonneg; lia | exact Hd]. }
  pose proof (@binary_round_aux_large (xorb s false) q e' (d + e - 26 - e')
                (new_location 9646899 r) ltac:(lia) Hbig
                ltac:(unfold emin, prec, emax in *; lia)) as H.
  destruct (binary_round_aux prec emax (xorb s false) q e'
                             (new_location 9646899 r))
    as [?|s'| |s' mq eq']; try contradiction; cbn [large]; auto.
  destruct H as (_ & Hmq & Heq). split; [exact Hmq | lia].
Qed.

Lemma SFdiv_finite_not_nan (a : float) (s : bool) (m : positive) (e : Z) :
  is_nan a = false -> is_nan (SFdiv prec emax a (S754_finite s m e)) = false.
Proof.
  destruct a as [sa|sa| |sa ma ea]; cbn [SFdiv is_nan]; try discriminate; auto.
  intros _. unfold SFdiv_core_binary.
  set (m' := match _ with 0 => Zpos ma | Zpos _ => Z.shiftl (Zpos ma) _
                     | Zneg _ => 0 end).
  assert (Hm' : 0 <= m').
  { unfold m'. destruct (_ - _)%Z; try lia. apply Z.shiftl_nonneg. lia. }
  pose proof (@div_eucl_nonneg m' (Zpos m) Hm' eq_refl) as Hq.
  destruct (Z.div_eucl m' (Zpos m)) as [q r]. cbn [fst] in Hq.
  pose proof (@binary_round_aux_sign (xorb sa s) q
                (Z.min (fexp prec emax (Zdigits2 (Zpos ma) + ea
                                        - (Zdigits2 (Zpos m) + e))) (ea - e))
                (new_location (Zpos m) r) Hq) as H.
  destruct (binary_round_aux _ _ _ _ _ _); (reflexivity || contradiction).
Qed.

(** The square of a large float is large and above zero. *)
Lemma SFmul_square_large (k : Z) (a : float) :
  large k a -> emin prec emax <= 2 * k + 23 ->
  large_positive (2 * k + 23) (SFmul prec emax a a).
Proof.
  destruct a as [s|s| |s m e]; cbn [large SFmul]; try contradiction.
  - intros _ _. destruct s; exact I.
  - intros [Hm He] Hk.
    assert (Hsq : 2 ^ (23 + 23) <= Zpos (m * m)).
    { rewrite Pos2Z.inj_mul. change (2 ^ (23 + 23)) with (2 ^ 23 * 2 ^ 23).
      apply Z.mul_le_mono_nonneg; lia. }
    pose proof (@binary_round_aux_large (xorb s s) (Zpos (m * m)) (e + e) 23
                  loc_Exact ltac:(lia) Hsq ltac:(lia)) as H.
    rewrite xorb_nilpotent in *.
    destruct (binary_round_aux prec emax false (Zpos (m * m)) (e + e) loc_Exact)
      as [?|s'| |s' m' e']; try contradiction.
    + rewrite H. exact I.
    + destruct H as (-> & Hm' & He'). cbn [large_positive]. split; [exact Hm'|lia].
Qed.

(** A square is never below zero. *)
Lemma SFmul_square_not_below_zero (a : float) :
  is_nan a = false -> not_below_zero (SFmul prec emax a a).
Proof.
  destruct a as [[]|[]| |s m e]; cbn [SFmul is_nan not_below_zero xorb];
    try discriminate; auto.
  intros _. rewrite xorb_nilpotent.
  pose proof (@binary_round_aux_sign false (Zpos (m * m)) (e + e) loc_Exact
                ltac:(lia)) as H.
  destruct (binary_round_aux _ _ _ _ _ _) as [[]|[]| |[] ? ?];
    (exact I || discriminate || contradiction).
Qed.

Lemma large_positive_not_below_zero (k : Z) (a : float) :
  large_positive k a -> not_below_zero a.
Proof. destruct a as [[]|[]| |[] m e]; cbn; auto. Qed.

Lemma binary_round_not_below_zero (p : positive) (e : Z) :
  not_below_zero (binary_round prec emax false p e).
Proof.
  unfold binary_round.
  destruct (shl_align p e _) as [mz ez].
  pose proof (@binary_round_aux_sign false (Zpos mz) ez loc_Exact ltac:(lia))
    as H.
  destruct (binary_round_aux _ _ _ _ _ _) as [[]|[]| |[] ? ?];
    (exact I || discriminate || contradiction).
Qed.

(** Sums of values that are not below zero are not below zero. *)
Lemma SFadd_not_below_zero (a b : float) :
  not_below_zero a -> not_below_zero b -> not_below_zero (SFadd prec emax a b).
Proof.
  destruct a as [[]|[]| |[] ma ea], b as [[]|[]| |[] mb eb];
    cbn [not_below_zero SFadd cond_Zopp binary_normalize Z.add];
    try contradiction; auto.
  intros _ _. apply binary_round_not_below_zero.
Qed.

(** Adding a value that is not below zero to a large positive one keeps it
    large. *)
Lemma SFadd_large_l (k : Z) (a b : float) :
  large_positive k a -> not_below_zero b -> emin prec emax <= k ->
  large_positive k (SFadd prec emax a b).
Proof.
  destruct a as [[]|[]| |[] ma ea], b as [[]|[]| |[] mb eb];
    cbn [large_positive not_below_zero SFadd cond_Zopp binary_normalize Z.add];
    try contradiction; auto.
  intros [Hm He] _ Hk.
  destruct (shl_align_value ma ea (Z.min ea eb)) as [Hs Hv].
  assert (Hs' : snd (shl_align ma ea (Z.min ea eb)) = Z.min ea eb).
  { unfold shl_align. destruct (Z.min ea eb - ea) eqn:E; cbn [snd]; lia. }
  rewrite Hs' in Hv.
  set (A := fst (shl_align ma ea (Z.min ea eb))) in *.
  set (B := fst (shl_align mb eb (Z.min ea eb))) in *.
  assert (Hbig : 2 ^ (23 + (ea - Z.min ea eb)) <= Zpos (A + B)).
  { rewrite Pos2Z.inj_add, Hv, Z.pow_add_r by lia.
    assert (2 ^ 23 * 2 ^ (ea - Z.min ea eb) <= Zpos ma * 2 ^ (ea - Z.min ea eb))
      by (apply Z.mul_le_mono_nonneg_r; [apply Z.pow_nonneg; lia | exact Hm]).
    lia. }
  pose proof (@binary_round_large false (A + B) (Z.min ea eb)
                (ea - Z.min ea eb) ltac:(lia) Hbig ltac:(lia)) as H.
  destruct (binary_round prec emax false (A + B) (Z.min ea eb))
    as [?|s'| |s' m' e']; try contradiction.
  - rewrite H. exact I.
  - destruct H as (-> & Hm' & He'). cbn [large_positive]. split; [exact Hm'|lia].
Qed.

Lemma SFadd_large_r (k : Z) (a b : float) :
  not_below_zero a -> large_positive k b -> emin prec emax <= k ->
  large_positive k (SFadd prec emax a b).
Proof.
  destruct a as [[]|[]| |[] ma ea], b as [[]|[]| |[] mb eb];
    cbn [large_positive not_below_zero SFadd cond_Zopp binary_normalize Z.add];
    try contradiction; auto.
  intros _ [Hm He] Hk.
  destruct (shl_align_value mb eb (Z.min ea eb)) as [Hs Hv].
  assert (Hs' : snd (shl_align mb eb (Z.min ea eb)) = Z.min ea eb).
  { unfold shl_align. destruct (Z.min ea eb - eb) eqn:E; cbn [snd]; lia. }
  rewrite Hs' in Hv.
  set (A := fst (shl_align ma ea (Z.min ea eb))) in *.
  set (B := fst (shl_align mb eb (Z.min ea eb))) in *.
  assert (Hbig : 2 ^ (23 + (eb - Z.min ea eb)) <= Zpos (A + B)).
  { rewrite Pos2Z.inj_add, Hv, Z.pow_add_r by lia.
    assert (2 ^ 23 * 2 ^ (eb - Z.min ea eb) <= Zpos mb * 2 ^ (eb - Z.min ea eb))
      by (apply Z.mul_le_mono_nonneg_r; [apply Z.pow_nonneg; lia | exact Hm]).
    lia. }
  pose proof (@binary_round_large false (A + B) (Z.min ea eb)
                (eb - Z.min ea eb) ltac:(lia) Hbig ltac:(lia)) as H.
  destruct (binary_round prec emax false (A + B) (Z.min ea eb))
    as [?|s'| |s' m' e']; try contradiction.
  - rewrite H. exact I.
  - destruct H as (-> & Hm' & He'). cbn [large_positive]. split; [exact Hm'|lia].
Qed.

(** The square root of a float of magnitude 64 at least has an exponent of
    -20 at least: it is 8 or more. *)
Lemma SFsqrt_large (k : Z) (a : float) :
  large_positive k a -> -17 <= k -> positive_above (-20) (SFsqrt prec emax a).
Proof.
  destruct a as [[]|[]| |[] m e]; cbn [large_positive SFsqrt positive_above];
    try contradiction; auto.
  intros [Hm He] Hk.
  unfold SFsqrt_core_binary. cbn [Zdigits2].
  assert (Hd := digits2_lower m).
  assert (Hg := @digits2_ge m 23 ltac:(lia) Hm).
  set (d := Zpos (digits2_pos m)) in *.
  set (e' := Z.min (fexp prec emax (Z.div2 (d + e + 1))) (Z.div2 e)).
  assert (He' : 2 * e' <= e
                /\ (-20 <= e' -> 2 * e' <= d + e - 47)).
  { unfold e', fexp, emin, prec, emax.
    rewrite !Z.div2_div. split.
    - pose proof (Z.div_mod e 2). pose proof (Z.mod_pos_bound e 2). lia.
    - pose proof (Z.div_mod (d + e + 1) 2).
      pose proof (Z.mod_pos_bound (d + e + 1) 2). lia. }
  destruct He' as [H1 H2]. clearbody e'.
  set (m' := match e - 2 * e' with
             | 0 => Zpos m
             | Zpos _ => Z.shiftl (Zpos m) (e - 2 * e')
             | Zneg _ => 0
             end).
  assert (Hm' : m' = Zpos m * 2 ^ (e - 2 * e')).
  { unfold m'. destruct (e - 2 * e') as [|p|p] eqn:Es; try lia.
    rewrite Z.shiftl_mul_pow2 by lia. reflexivity. }
  clearbody m'.
  pose proof (Z.sqrtrem_sqrt m') as Hq.
  destruct (Z.sqrtrem m') as [q r]. cbn [fst] in Hq.
  set (j := Z.max 0 (-20 - e')).
  assert (Hbig : 2 ^ (23 + j) <= q).
  { rewrite Hq. apply Z.sqrt_le_square; [rewrite Hm'; lia | apply Z.pow_nonneg; lia|].
    rewrite <- Z.pow_add_r by lia. rewrite Hm'.
    apply Z.le_trans with (2 ^ (d - 1) * 2 ^ (e - 2 * e')).
    - rewrite <- Z.pow_add_r by lia. apply Z.pow_le_mono_r; lia.
    - apply Z.mul_le_mono_nonneg_r; [apply Z.pow_nonneg; lia | exact Hd]. }
  set (l := if r =? 0 then loc_Exact
            else loc_Inexact (if r <=? q then Lt else Gt)).
  pose proof (@binary_round_aux_large false q e' j l ltac:(lia) Hbig
                ltac:(unfold emin, prec, emax; lia)) as H.
  destruct (binary_round_aux prec emax false q e' l)
    as [?|s'| |s' mq eq']; try contradiction.
  - rewrite H. exact I.
  - destruct H as (-> & _ & Heq). cbn [positive_above]. lia.
Qed.

(** Above 4: any positive float whose exponent exceeds that of 4. *)
Lemma positive_above_4 (r : float) :
  positive_above (-20) r -> SFltb (S754_finite false 8388608 (-21)) r = true.
Proof.
  destruct r as [[]|[]| |[] m e]; cbn [positive_above]; try contradiction; auto.
  intros He. unfold SFltb. cbn [SFcompare].
  destruct (Z.compare_spec (-21) e) as [E|E|E]; try lia; reflexivity.
Qed.
End B32FarField.

Section B32Norm.
Import B32.
Local Open Scope R_scope.

(** A canonical coordinate that is not far is finite and below 32 in
    magnitude. *)
Lemma near_coordinate_bound (c : float) :
  valid c = true -> is_nan c = false -> far_coordinate c = false ->
  Rabs (to_R c) < 32.
Proof.
  unfold far_coordinate.
  change (flit 32 1) with (S754_finite false 8388608 (-18)).
  destruct c as [s|s| |s m e]; cbn [SFabs to_R is_nan]; try discriminate;
    intros Hv _ Hfar; try (rewrite Rabs_R0; lra).
  unfold valid in Hv. cbn [valid_binary] in Hv.
  unfold bounded, canonical_mantissa in Hv.
  apply andb_prop in Hv. destruct Hv as [Hc _]. apply Z.eqb_eq in Hc.
  pose proof (digits2_upper m) as Hu.
  unfold SFleb in Hfar. cbn [SFcompare] in Hfar.
  unfold fexp, emin, prec, emax in Hc.
  assert (He : (e <= -18)%Z).
  { destruct (Z.compare_spec (-18) e) as [E|E|E]; try lia; discriminate. }
  assert (Hm : (Zpos m < 32 * 2 ^ (- e))%Z).
  { destruct (Z.eq_dec e (-18)) as [->|Hne].
    - rewrite Z.compare_refl, Pos.compare_cont_spec in Hfar.
      cbn [Pos.switch_Eq] in Hfar.
      destruct (Pos.compare_spec 8388608 m) as [P|P|P]; try discriminate.
      change (32 * 2 ^ (- -18))%Z with 8388608%Z. lia.
    - assert (Hd : (Zpos (digits2_pos m) <= 24)%Z) by lia.
      assert (H24 : (2 ^ Zpos (digits2_pos m) <= 2 ^ 24)%Z)
        by (apply Z.pow_le_mono_r; lia).
      assert (H19 : (2 ^ 19 <= 2 ^ (- e))%Z) by (apply Z.pow_le_mono_r; lia).
      change (2 ^ 24)%Z with (32 * 2 ^ 19)%Z in H24. lia. }
  replace (0 <=? e)%Z with false by (symmetry; apply Z.leb_gt; lia).
  assert (HP : (0 < 2 ^ (- e))%Z) by (apply Z.pow_pos_nonneg; lia).
  apply IZR_lt in Hm, HP. rewrite mult_IZR in Hm.
  set (P := IZR (2 ^ (- e))) in *.
  assert (HiP : 0 < / P) by (apply Rinv_0_lt_compat; exact HP).
  rewrite Rabs_mult, (Rabs_pos_eq (/ P)) by lra.
  replace (Rabs (IZR (cond_Zopp s (Zpos m)))) with (IZR (Zpos m))
    by (destruct s; cbn [cond_Zopp]; [rewrite <- Rabs_Ropp, <- opp_IZR|];
        cbn [Z.opp]; rewrite Rabs_pos_eq; try reflexivity;
        apply IZR_le; lia).
  apply Rmult_lt_reg_r with P; [exact HP|].
  rewrite Rmult_assoc, Rinv_l by lra. lra.
Qed.

(** A binary32 point of norm 56 at least has a coordinate of magnitude 32 at
    least: it is a far point. *)
Lemma norm_far_point (pos : float3 float) :
  valid3 pos = true -> no_nan pos = true -> 56 <= norm_R pos ->
  far_point pos = true.
Proof.
  unfold far_point, no_nan. intros Hv Hn Hnorm. rewrite Hv, Hn. cbn [andb].
  unfold valid3 in Hv.
  apply andb_prop in Hv. destruct Hv as [Hv Hvz].
  apply andb_prop in Hv. destruct Hv as [Hvx Hvy].
  apply negb_true_iff in Hn.
  apply orb_false_elim in Hn. destruct Hn as [Hn Hnz].
  apply orb_false_elim in Hn. destruct Hn as [Hnx Hny].
  destruct (far_coordinate (fx pos)) eqn:Fx; [reflexivity|].
  destruct (far_coordinate (fy pos)) eqn:Fy; [reflexivity|].
  destruct (far_coordinate (fz pos)) eqn:Fz; [reflexivity|].
  exfalso.
  pose proof (near_coordinate_bound _ Hvx Hnx Fx) as Bx.
  pose proof (near_coordinate_bound _ Hvy Hny Fy) as By.
  pose proof (near_coordinate_bound _ Hvz Hnz Fz) as Bz.
  unfold norm_R in Hnorm.
  set (x := to_R (fx pos)) in *. set (y := to_R (fy pos)) in *.
  set (z := to_R (fz pos)) in *.
  assert (Sx : x * x < 1024)
    by (apply Rabs_def2 in Bx; nra).
  assert (Sy : y * y < 1024)
    by (apply Rabs_def2 in By; nra).
  assert (Sz : z * z < 1024)
    by (apply Rabs_def2 in Bz; nra).
  assert (H0 : 0 <= x * x + y * y + z * z) by nra.
  assert (Hs : sqrt (x * x + y * y + z * z) < sqrt (56 * 56))
    by (apply sqrt_lt_1; lra).
  rewrite sqrt_square in Hs by lra. lra.
Qed.
End B32Norm.

Section B32FarScene.
Import B32 RealModel.
Local Open Scope fl_scope.

(** The scaled norm of a far point is 8 at least, as the code computes it:
    the first bailout test succeeds. *)
Lemma length_far (pos : float3 float) :
  far_point pos = true ->
  positive_above (-20) (length (vdivs pos (flit 23 10))).
Proof.
  unfold far_point, valid3. intros H.
  apply andb_prop in H. destruct H as [H Hfar].
  apply andb_prop in H. destruct H as [Hv Hnan].
  apply andb_prop in Hv. destruct Hv as [Hv Hvz].
  apply andb_prop in Hv. destruct Hv as [Hvx Hvy].
  unfold no_nan in Hnan. apply negb_true_iff in Hnan.
  apply orb_false_elim in Hnan. destruct Hnan as [Hnan Hnz].
  apply orb_false_elim in Hnan. destruct Hnan as [Hnx Hny].
  unfold length, dot, vdivs. cbn [fx fy fz].
  change (flit 23 10) with (S754_finite false 9646899 (-22)).
  cbn [sqrtf fadd fmul fdiv ops].
  set (c := S754_finite false 9646899 (-22)).
  assert (Sx := SFmul_square_not_below_zero
                  (SFdiv prec emax (fx pos) c) (SFdiv_finite_not_nan _ _ _ _ Hnx)).
  assert (Sy := SFmul_square_not_below_zero
                  (SFdiv prec emax (fy pos) c) (SFdiv_finite_not_nan _ _ _ _ Hny)).
  assert (Sz := SFmul_square_not_below_zero
                  (SFdiv prec emax (fz pos) c) (SFdiv_finite_not_nan _ _ _ _ Hnz)).
  assert (Hsq : forall a, valid a = true -> far_coordinate a = true ->
                          large_positive (-17)
                            (SFmul prec emax (SFdiv prec emax a c)
                                             (SFdiv prec emax a c))).
  { intros a Va Fa.
    apply (@SFmul_square_large (-20) (SFdiv prec emax a c)).
    - apply (@SFdiv_large (-18) a); [apply far_coordinate_large; assumption|].
      unfold emin, prec, emax. lia.
    - unfold emin, prec, emax. lia. }
  assert (Hemin : (emin prec emax <= -17)%Z) by (unfold emin, prec, emax; lia).
  apply SFsqrt_large with (-17)%Z; [|lia].
  apply orb_prop in Hfar. destruct Hfar as [Hfar|Fz].
  - apply orb_prop in Hfar. destruct Hfar as [Fx|Fy].
    + apply SFadd_large_l; [|exact Sz|exact Hemin].
      apply SFadd_large_l; [|exact Sy|exact Hemin].
      apply Hsq; assumption.
    + apply SFadd_large_l; [|exact Sz|exact Hemin].
      apply SFadd_large_r; [exact Sx| |exact Hemin].
      apply Hsq; assumption.
  - apply SFadd_large_r; [| |exact Hemin].
    + apply SFadd_not_below_zero; assumption.
    + apply Hsq; assumption.
Qed.

(** The estimate returned on a first-test escape, scaled back by 2.3f, is
    above zero as soon as the library's logarithm of the scaled norm is 1 at
    least: no product on the way underflows. *)
Lemma far_term_positive (l r : float) :
  SFleb (flit 1 1) l = true -> positive_above (-20) r ->
  SFltb (flit 0 1) (flit 5 10 * l * r / flit 1 1 * flit 23 10) = true.
Proof.
  change (flit 1 1) with (S754_finite false 8388608 (-23)).
  change (flit 5 10) with (S754_finite false 8388608 (-24)).
  change (flit 23 10) with (S754_finite false 9646899 (-22)).
  change (flit 0 1) with (S754_zero false).
  cbn [fmul fdiv ops].
  intros Hl Hr. apply SFleb_positive_above in Hl.
  apply positive_above_SFltb with (emin prec emax).
  apply SFmul_const_positive; [|lia|change (2 ^ (- -22))%Z with 4194304%Z; lia].
  apply SFdiv_one_positive.
  apply positive_above_weaken with (-24 + -23 + -20)%Z;
    [unfold emin, prec, emax; lia|].
  apply SFmul_positive_above; [|exact Hr|unfold emin, prec, emax; lia].
  apply SFmul_positive_above; [|exact Hl|unfold emin, prec, emax; lia].
  cbn [positive_above]. lia.
Qed.

(** The union with a term above zero is above zero exactly when the other
    operand is above zero or missing (NaN). *)
Lemma fminf_positive (t p : float) :
  SFltb (S754_zero false) t = true ->
  SFltb (S754_zero false) (b32_fminf t p)
  = SFltb (S754_zero false) p || is_nan p.
Proof.
  intros Ht.
  assert (Nt : is_nan t = false) by (destruct t; [reflexivity..|discriminate|reflexivity]).
  destruct p as [sp|sp| |sp mp ep] eqn:Ep;
    try (destruct t; try discriminate; cbn [b32_fminf is_nan];
         rewrite ?orb_true_r, ?orb_false_r;
         match goal with
         | |- context [if ?c then _ else _] =>
             destruct c eqn:E; [|reflexivity];
             rewrite Ht; symmetry;
             apply (@SFleb_SFltb_trans (S754_zero false) _ _
                      (SFltb_SFleb _ _ Ht) E)
         | _ => assumption
         end).
Qed.

Lemma fractal_term_escape (lm : Libm float) (pos : float3 float) :
  (length (vdivs pos (flit 23 10)) >? flit 4 1) = true ->
  fractal_term pos
  = flit 5 10 * logf (length (vdivs pos (flit 23 10)))
    * length (vdivs pos (flit 23 10)) / flit 1 1 * flit 23 10.
Proof.
  intros H. unfold fractal_term.
  rewrite mandelbulb_escapes_at_once; [reflexivity | lia | exact H].
Qed.

(** C9, amended. On binary32, for every math library and every far query
    point (no NaN coordinate, one coordinate of magnitude 32 at least; every
    point of norm 56 at least is one), the scaled norm [r = length(pos/2.3f)]
    the code computes passes the first bailout test, so the fractal term is
    [0.5f * logf(r) * r / 1.0f * 2.3f] in float arithmetic and the scene is
    the [fminf] of that term and the plane distance; when the library's
    [logf(r)] is 1 at least the term is above zero, and the scene is above
    zero exactly when the plane distance is above zero or NaN.  The term is
    not strictly increasing with the norm: two adjacent abscissae near 10,
    and 1e20 and 2e20, give equal terms whatever the library.  In exact
    arithmetic, beyond the scaled bailout radius the term is
    [2.3 * 0.5 * ln(|pos|/2.3) * (|pos|/2.3)], positive and strictly
    increasing with [|pos|]. *)
Theorem far_field_scene :
  (forall (lm : Libm float) (pos : float3 float),
      far_point pos = true ->
      (length (vdivs pos (flit 23 10)) >? flit 4 1) = true
      /\ fractal_term pos
         = flit 5 10 * logf (length (vdivs pos (flit 23 10)))
           * length (vdivs pos (flit 23 10)) / flit 1 1 * flit 23 10
      /\ mandelbulbScene pos = fminf (fractal_term pos) (ground_plane pos)
      /\ (SFleb (flit 1 1) (logf (length (vdivs pos (flit 23 10)))) = true ->
          (fractal_term pos >? flit 0 1) = true
          /\ (mandelbulbScene pos >? flit 0 1)
             = (ground_plane pos >? flit 0 1) || is_nan (ground_plane pos)))
  /\ (forall pos : float3 float,
         valid3 pos = true -> no_nan pos = true -> (56 <= norm_R pos)%R ->
         far_point pos = true)
  /\ (forall lm : Libm float,
         fractal_term (lm := lm)
           (make_float3 (flit 10485766 1048576) (flit 0 1) (flit 0 1)
            : float3 float)
         = fractal_term (lm := lm)
             (make_float3 (flit 10485767 1048576) (flit 0 1) (flit 0 1)
              : float3 float)
         /\ fractal_term (lm := lm)
              (make_float3 (flit 100000000000000000000 1) (flit 0 1) (flit 0 1)
               : float3 float)
            = fractal_term (lm := lm)
                (make_float3 (flit 200000000000000000000 1) (flit 0 1) (flit 0 1)
                 : float3 float))
  /\ (forall p q : float3 R,
         (23 / 10 * 4 < length p)%R -> (length p < length q)%R ->
         fractal_term p
         = (23 / 10 * (1 / 2 * ln (length p / (23 / 10))
                       * (length p / (23 / 10))))%R
         /\ (0 < fractal_term p)%R
         /\ (fractal_term p < fractal_term q)%R).
Proof.
  split; [|split; [exact norm_far_point|split]].
  - intros lm pos Hfar.
    pose proof (length_far pos Hfar) as Hr.
    pose proof (positive_above_4 _ Hr) as Hesc.
    change (S754_finite false 8388608 (-21)) with (flit 4 1 : float) in Hesc.
    assert (Hterm := @fractal_term_escape lm pos Hesc).
    split; [exact Hesc|]. split; [exact Hterm|].
    split; [apply mandelbulbScene_union|].
    intros Hlog.
    assert (Hpos : (fractal_term pos >? flit 0 1) = true)
      by (rewrite Hterm; apply far_term_positive; assumption).
    split; [exact Hpos|].
    rewrite mandelbulbScene_union. apply fminf_positive. exact Hpos.
  - intros lm. split.
    + rewrite !(@fractal_term_escape lm) by (vm_compute; reflexivity).
      assert (E : length (vdivs (make_float3 (flit 10485766 1048576)
                                             (flit 0 1) (flit 0 1)
                                 : float3 float) (flit 23 10))
                  = length (vdivs (make_float3 (flit 10485767 1048576)
                                               (flit 0 1) (flit 0 1)
                                   : float3 float) (flit 23 10)))
        by (vm_compute; reflexivity).
      rewrite E. reflexivity.
    + rewrite !(@fractal_term_escape lm) by (vm_compute; reflexivity).
      assert (E : length (vdivs (make_float3 (flit 100000000000000000000 1)
                                             (flit 0 1) (flit 0 1)
                                 : float3 float) (flit 23 10))
                  = length (vdivs (make_float3 (flit 200000000000000000000 1)
                                               (flit 0 1) (flit 0 1)
                                   : float3 float) (flit 23 10)))
        by (vm_compute; reflexivity).
      rewrite E. reflexivity.
  - intros p q Hp Hq. apply fractal_term_far_increasing; assumption.
Qed.

Lemma far_field_scene_witness :
  (fractal_term (lm := passthrough_libm)
                (make_float3 (flit 100 1) (flit 3 1) (flit 0 1) : float3 float)
   >? flit 0 1) = true
  /\ (mandelbulbScene (lm := passthrough_libm)
                      (make_float3 (flit 100 1) (flit 3 1) (flit 0 1)
                       : float3 float)
      >? flit 0 1) = true
  /\ (fractal_term (make_float3 10 0 0 : float3 R)
      < fractal_term (make_float3 20 0 0 : float3 R))%R.
Proof.
  destruct far_field_scene as (Hb & _ & _ & Hr).
  destruct (Hb passthrough_libm
                (make_float3 (flit 100 1) (flit 3 1) (flit 0 1) : float3 float))
    as (_ & _ & _ & Hpos); [vm_compute; reflexivity|].
  destruct Hpos as [Hterm Hscene]; [vm_compute; reflexivity|].
  split; [exact Hterm|]. split.
  - rewrite Hscene. vm_compute. reflexivity.
  - apply (Hr (make_float3 10 0 0) (make_float3 20 0 0))%R.
    + rewrite length_on_x_axis by lra. lra.
    + rewrite !length_on_x_axis by lra. lra.
Defined.
End B32FarScene.

(** ** Binary32: the sign of the estimate *)

Section B32Estimate.
Import B32.
Local Open Scope fl_scope.

Lemma binary_round_aux_sign_clear (m e : Z) (l : location) :
  (0 <= m)%Z -> sign_set (binary_round_aux prec emax false m e l) = false.
Proof.
  intros Hm. pose proof (@binary_round_aux_sign false m e l Hm) as H.
  destruct (binary_round_aux prec emax false m e l);
    cbn [sign_set]; (assumption || reflexivity).
Qed.

Lemma SFmul_square_sign_clear (a : float) :
  sign_set (SFmul prec emax a a) = false.
Proof.
  destruct a as [s|s| |s m e]; cbn [SFmul sign_set];
    rewrite ?xorb_nilpotent; try reflexivity.
  apply binary_round_aux_sign_clear. lia.
Qed.

Lemma SFadd_sign_clear (a b : float) :
  sign_set a = false -> sign_set b = false ->
  sign_set (SFadd prec emax a b) = false.
Proof.
  destruct a as [sa|sa| |sa ma ea], b as [sb|sb| |sb mb eb];
    cbn [sign_set]; intros Ha Hb; subst; try reflexivity.
  cbn [SFadd cond_Zopp binary_normalize Z.add]. unfold binary_round.
  destruct (shl_align _ _ _) as [mz ez].
  apply binary_round_aux_sign_clear. lia.
Qed.

Lemma SFsqrt_sign_clear (a : float) :
  sign_set a = false -> sign_set (SFsqrt prec emax a) = false.
Proof.
  destruct a as [s|s| |s m e]; cbn [sign_set]; intros Ha; subst; try reflexivity.
  cbn [SFsqrt]. unfold SFsqrt_core_binary.
  set (m' := match _ with 0%Z => Zpos m | Zpos _ => Z.shiftl (Zpos m) _
                     | Zneg _ => 0%Z end).
  pose proof (Z.sqrtrem_sqrt m') as Hq.
  destruct (Z.sqrtrem m') as [q r]. cbn [fst] in Hq.
  apply binary_round_aux_sign_clear. rewrite Hq. apply Z.sqrt_nonneg.
Qed.

(** The norm the code computes is never below zero, nor the negative
    zero. *)
Lemma length_sign_clear (z : float3 float) : sign_set (length z) = false.
Proof.
  unfold length, dot. cbn [sqrtf fadd fmul ops].
  apply SFsqrt_sign_clear.
  apply SFadd_sign_clear; [apply SFadd_sign_clear|];
    apply SFmul_square_sign_clear.
Qed.

Lemma positive_or_nan_not_negative (a : float) :
  positive_or_nan a = true -> is_negative a = false.
Proof. destruct a as [[]|[]| |[] m e]; cbn; congruence. Qed.

(** Adding one to a value that is not below zero gives a value above zero
    (or NaN). *)
Lemma SFadd_one_positive (a : float) :
  is_negative a = false ->
  positive_or_nan (SFadd prec emax a (S754_finite false 8388608 (-23))) = true.
Proof.
  destruct a as [s|[]| |[] m e]; cbn [is_negative]; try discriminate;
    intros _; try reflexivity.
  cbn [SFadd cond_Zopp binary_normalize Z.add].
  destruct (shl_align_value 8388608 (-23) (Z.min e (-23))) as [Hs Hv].
  assert (Hs' : snd (shl_align 8388608 (-23) (Z.min e (-23))) = Z.min e (-23)).
  { unfold shl_align. destruct (Z.min e (-23) - -23)%Z eqn:E; cbn [snd]; lia. }
  rewrite Hs' in Hv.
  set (A := fst (shl_align m e (Z.min e (-23)))) in *.
  set (B := fst (shl_align 8388608 (-23) (Z.min e (-23)))) in *.
  assert (Hbig : (2 ^ (23 + (-23 - Z.min e (-23))) <= Zpos (A + B))%Z).
  { rewrite Pos2Z.inj_add, Hv, Z.pow_add_r by lia.
    change (2 ^ 23)%Z with 8388608%Z. lia. }
  pose proof (@binary_round_large false (A + B) (Z.min e (-23))
                (-23 - Z.min e (-23)) ltac:(lia) Hbig
                ltac:(unfold emin, prec, emax; lia)) as H.
  destruct (binary_round prec emax false (A + B) (Z.min e (-23)))
    as [?|s'| |s' m' e']; try contradiction.
  - rewrite H. reflexivity.
  - destruct H as (-> & _). reflexivity.
Qed.

Section Library.
Variable lm : Libm float.
Hypothesis powf_not_negative :
  forall a b : float, sign_set a = false -> is_negative (powf a b) = false.

(** One pass through the loop body keeps the running derivative above zero
    (or NaN). *)
Lemma mandelbulb_body_derivative (pos : float3 float) (power : float)
      (z : float3 float) (dr : float) :
  is_negative power = false -> positive_or_nan dr = true ->
  positive_or_nan (snd (mandelbulb_body pos power z (length z) dr)) = true.
Proof.
  intros Hp Hdr. unfold mandelbulb_body. cbn [snd].
  change (flit 1 1) with (S754_finite false 8388608 (-23)).
  cbn [fadd fmul ops].
  apply SFadd_one_positive.
  apply SFmul_not_negative; [|apply positive_or_nan_not_negative; exact Hdr].
  apply SFmul_not_negative; [|exact Hp].
  apply powf_not_negative. apply length_sign_clear.
Qed.

Lemma mandelbulb_loop_derivative (n : nat) (pos : float3 float)
      (bail power : float) :
  is_negative power = false ->
  forall (z : float3 float) (dr r : float),
    positive_or_nan dr = true ->
    positive_or_nan (fst (mandelbulb_loop n pos bail power z dr r)) = true.
Proof.
  intros Hp. induction n as [|n IH]; intros z dr r Hdr.
  - exact Hdr.
  - rewrite mandelbulb_loop_unfold.
    destruct (length z >? bail); [exact Hdr|].
    apply IH. apply mandelbulb_body_derivative; assumption.
Qed.

(** X7. On binary32, with a math library whose [powf] of a base that is not
    signed is never below zero, and a power that is not below zero, the
    running derivative the loop of [mandelbulb] returns is above zero or NaN:
    the estimate never divides by a zero, whatever the point, the number of
    iterations and the bailout. *)
Theorem running_derivative_never_zero (pos : float3 float) (iterations : Z)
        (bail power : float) :
  is_negative power = false ->
  positive_or_nan
    (fst (mandelbulb_loop (Z.to_nat iterations) pos bail power
                          pos (flit 1 1) (flit 0 1))) = true.
Proof.
  intros Hp. apply mandelbulb_loop_derivative; [exact Hp | reflexivity].
Qed.

Hypothesis logf_not_negative :
  forall a : float, SFleb (flit 1 1) a = true -> is_negative (logf a) = false.

Lemma SFltb_one_not_negative (a b : float) :
  SFleb (flit 1 1) a = true -> SFltb a b = true ->
  SFleb (flit 1 1) b = true /\ is_negative b = false.
Proof.
  intros Ha Hab.
  pose proof (SFleb_SFltb_trans _ _ _ Ha Hab) as H.
  split; [apply SFltb_SFleb; exact H|].
  change (flit 1 1) with (S754_finite false 8388608 (-23)) in H.
  destruct b as [[]|[]| |[] m e]; try reflexivity; discriminate.
Qed.

(** X8. On binary32, with a math library whose [powf] of an unsigned base
    and whose [logf] of an argument of 1 at least are never below zero, a
    power that is not below zero and a bailout of 1 at least: when some step
    within the iteration budget escapes, the estimate [mandelbulb] returns
    is not below zero (it may be NaN). *)
Theorem mandelbulb_not_negative_on_escape (pos : float3 float)
        (iterations : Z) (bail power : float) :
  is_negative power = false ->
  SFleb (flit 1 1) bail = true ->
  (exists k : nat,
      (k < Z.to_nat iterations)%nat /\ escaped pos bail power k = true) ->
  is_negative (mandelbulb pos iterations bail power) = false.
Proof.
  intros Hp Hbail (k0 & Hk0 & Hesc0).
  pose proof (@mandelbulb_loop_derivative (Z.to_nat iterations) pos bail power
                Hp pos (flit 1 1) (flit 0 1) eq_refl) as Hdr.
  destruct (@mandelbulb_loop_orbit _ _ lm pos bail power (Z.to_nat iterations)
              0%nat (flit 0 1)) as (k & Hk & Hbefore & Hat & Hres).
  cbn [orbit fst snd] in Hres.
  assert (Hlt : (k < Z.to_nat iterations)%nat).
  { destruct (Nat.lt_ge_cases k0 k) as [Hlt|Hge]; [|lia].
    rewrite Hbefore in Hesc0 by lia. discriminate. }
  unfold mandelbulb. rewrite Hres in *. cbn [fst] in Hdr.
  replace (k <? 0 + Z.to_nat iterations)%nat with true
    by (symmetry; apply Nat.ltb_lt; lia).
  specialize (Hat ltac:(lia)). unfold escaped in Hat.
  destruct (@SFltb_one_not_negative bail (radius_at pos power k) Hbail Hat)
    as [Hr1 Hrn].
  cbn [fdiv fmul ops].
  apply SFdiv_not_negative; [|exact Hdr].
  apply SFmul_not_negative; [|exact Hrn].
  apply SFmul_not_negative; [reflexivity|].
  apply logf_not_negative. exact Hr1.
Qed.
End Library.

Lemma passthrough_powf_not_negative (a b : float) :
  sign_set a = false -> is_negative (powf (Libm := passthrough_libm) a b) = false.
Proof. destruct a as [[]|[]| |[] m e]; cbn; congruence. Qed.

Lemma passthrough_logf_not_negative (a : float) :
  SFleb (flit 1 1) a = true ->
  is_negative (logf (Libm := passthrough_libm) a) = false.
Proof. destruct a as [[]|[]| |[] m e]; cbn; try reflexivity; discriminate. Qed.

Lemma running_derivative_never_zero_witness :
  positive_or_nan
    (fst (mandelbulb_loop (lm := passthrough_libm) (Z.to_nat 8)
            (make_float3 (flit 1 2) (flit 0 1) (flit 1 4))
            (flit 4 1) (flit 8 1)
            (make_float3 (flit 1 2) (flit 0 1) (flit 1 4))
            (flit 1 1) (flit 0 1))) = true.
Proof.
  apply (@running_derivative_never_zero passthrough_libm
           passthrough_powf_not_negative
           (make_float3 (flit 1 2) (flit 0 1) (flit 1 4)) 8
           (flit 4 1) (flit 8 1)).
  vm_compute. reflexivity.
Defined.

Lemma mandelbulb_not_negative_on_escape_witness :
  is_negative
    (mandelbulb (lm := passthrough_libm)
                (make_float3 (flit 3 1) (flit 4 1) (flit 0 1))
                8 (flit 4 1) (flit 8 1)) = false.
Proof.
  apply (@mandelbulb_not_negative_on_escape passthrough_libm
           passthrough_powf_not_negative passthrough_logf_not_negative).
  - vm_compute. reflexivity.
  - vm_compute. reflexivity.
  - exists 0%nat. split; [vm_compute; lia | vm_compute; reflexivity].
Defined.
End B32Estimate.

(** ** Binary32: the mirror symmetry of the fractal *)

Section B32Mirror3.
Import B32.
Local Open Scope fl_scope.

Lemma binary_round_aux_opp (s : bool) (m e : Z) (l : location) :
  binary_round_aux prec emax (negb s) m e l
  = SFopp (binary_round_aux prec emax s m e l).
Proof.
  unfold binary_round_aux.
  destruct (shr_fexp prec emax m e l) as [r1 e1].
  destruct (shr_fexp prec emax _ e1 loc_Exact) as [r2 e2].
  destruct (shr_m r2); try reflexivity.
  destruct (e2 <=? emax - prec)%Z; reflexivity.
Qed.

Lemma binary_round_opp (s : bool) (p : positive) (e : Z) :
  binary_round prec emax (negb s) p e = SFopp (binary_round prec emax s p e).
Proof.
  unfold binary_round. destruct (shl_align p e _) as [mz ez].
  apply binary_round_aux_opp.
Qed.

Lemma SFmul_opp_l (a b : float) :
  SFmul prec emax (SFopp a) b = SFopp (SFmul prec emax a b).
Proof.
  destruct a as [sa|sa| |sa ma ea], b as [sb|sb| |sb mb eb];
    cbn [SFmul SFopp]; try reflexivity;
    try (destruct sa, sb; reflexivity).
  replace (xorb (negb sa) sb) with (negb (xorb sa sb))
    by (destruct sa, sb; reflexivity).
  apply binary_round_aux_opp.
Qed.

Lemma SFmul_opp_r (a b : float) :
  SFmul prec emax a (SFopp b) = SFopp (SFmul prec emax a b).
Proof.
  destruct a as [sa|sa| |sa ma ea], b as [sb|sb| |sb mb eb];
    cbn [SFmul SFopp]; try reflexivity;
    try (destruct sa, sb; reflexivity).
  replace (xorb sa (negb sb)) with (negb (xorb sa sb))
    by (destruct sa, sb; reflexivity).
  apply binary_round_aux_opp.
Qed.

Lemma SFdiv_opp_l (a b : float) :
  SFdiv prec emax (SFopp a) b = SFopp (SFdiv prec emax a b).
Proof.
  destruct a as [sa|sa| |sa ma ea], b as [sb|sb| |sb mb eb];
    cbn [SFdiv SFopp]; try reflexivity;
    try (destruct sa, sb; reflexivity).
  destruct (SFdiv_core_binary prec emax (Zpos ma) ea (Zpos mb) eb)
    as [[mz ez] lz].
  replace (xorb (negb sa) sb) with (negb (xorb sa sb))
    by (destruct sa, sb; reflexivity).
  apply binary_round_aux_opp.
Qed.

(** Negating both operands negates the sum, unless the sum is a zero. *)
Lemma SFadd_opp (a b : float) :
  mirrors (SFadd prec emax a b) (SFadd prec emax (SFopp a) (SFopp b)).
Proof.
  unfold mirrors.
  destruct a as [sa|sa| |sa ma ea], b as [sb|sb| |sb mb eb];
    cbn [SFadd SFopp];
    try (left; reflexivity);
    try (destruct sa, sb; cbn; auto; fail).
  set (A := Zpos (fst (shl_align ma ea (Z.min ea eb)))).
  set (B := Zpos (fst (shl_align mb eb (Z.min ea eb)))).
  replace (cond_Zopp (negb sa) A + cond_Zopp (negb sb) B)%Z
    with (- (cond_Zopp sa A + cond_Zopp sb B))%Z
    by (destruct sa, sb; cbn [cond_Zopp negb]; lia).
  destruct (cond_Zopp sa A + cond_Zopp sb B)%Z as [|p|p];
    cbn [Z.opp binary_normalize].
  - right. split; reflexivity.
  - left. apply (binary_round_opp false).
  - left. rewrite (binary_round_opp false), SFopp_involutive. reflexivity.
Qed.

Lemma mirrors_cases (u v : float) :
  mirrors u v -> v = SFopp u \/ (is_zero u = true /\ v = u).
Proof.
  intros [H|[Hu Hv]]; [left; exact H|].
  destruct u as [[]| | |]; try discriminate;
    destruct v as [[]| | |]; try discriminate; auto.
Qed.

Lemma mirrors_opp (u : float) : mirrors u (SFopp u).
Proof. left. reflexivity. Qed.

Lemma mirrors_square (u v : float) :
  mirrors u v -> SFmul prec emax v v = SFmul prec emax u u.
Proof.
  intros H. destruct (mirrors_cases H) as [->|[_ ->]]; [|reflexivity].
  rewrite SFmul_opp_l, SFmul_opp_r, SFopp_involutive. reflexivity.
Qed.

Lemma mirrors_div (u v r : float) :
  mirrors u v -> mirrors (SFdiv prec emax u r) (SFdiv prec emax v r).
Proof.
  intros H. destruct (mirrors_cases H) as [->|[Hz ->]].
  - left. apply SFdiv_opp_l.
  - destruct u as [su| | |]; try discriminate.
    destruct r as [sr|sr| |sr mr er]; cbn [SFdiv];
      ((left; reflexivity) || (right; split; reflexivity)).
Qed.

Lemma mirrors_mul_l (u v p : float) :
  mirrors u v -> mirrors (SFmul prec emax u p) (SFmul prec emax v p).
Proof.
  intros H. destruct (mirrors_cases H) as [->|[Hz ->]].
  - left. apply SFmul_opp_l.
  - destruct u as [su| | |]; try discriminate.
    destruct p as [sp|sp| |sp mp ep]; cbn [SFmul];
      ((left; reflexivity) || (right; split; reflexivity)).
Qed.

Lemma mirrors_mul_r (c u v : float) :
  mirrors u v -> mirrors (SFmul prec emax c u) (SFmul prec emax c v).
Proof.
  intros H. destruct (mirrors_cases H) as [->|[Hz ->]].
  - left. apply SFmul_opp_r.
  - destruct u as [su| | |]; try discriminate.
    destruct c as [sc|sc| |sc mc ec]; cbn [SFmul];
      ((left; reflexivity) || (right; split; reflexivity)).
Qed.

Lemma SFadd_zero_mirrors (s : bool) (c : float) :
  mirrors (SFadd prec emax (S754_zero s) c)
          (SFadd prec emax (S754_zero s) (SFopp c)).
Proof.
  destruct c as [sc|sc| |sc mc ec]; cbn [SFadd SFopp];
    try (left; reflexivity).
  destruct s, sc; cbn; (right; split; reflexivity).
Qed.

Lemma SFadd_mirrors_zero (a : float) (s : bool) :
  mirrors (SFadd prec emax a (S754_zero s))
          (SFadd prec emax (SFopp a) (S754_zero s)).
Proof.
  destruct a as [sa|sa| |sa ma ea]; cbn [SFadd SFopp];
    try (left; reflexivity).
  destruct s, sa; cbn; (right; split; reflexivity).
Qed.

Lemma mirrors_add (a b c d : float) :
  mirrors a b -> mirrors c d ->
  mirrors (SFadd prec emax a c) (SFadd prec emax b d).
Proof.
  intros Hab Hcd.
  destruct (mirrors_cases Hab) as [->|[Ha ->]],
           (mirrors_cases Hcd) as [->|[Hc ->]].
  - apply SFadd_opp.
  - destruct c as [sc| | |]; try discriminate. apply SFadd_mirrors_zero.
  - destruct a as [sa| | |]; try discriminate. apply SFadd_zero_mirrors.
  - destruct a as [sa| | |]; try discriminate.
    destruct c as [sc| | |]; try discriminate.
    right. destruct sa, sc; split; reflexivity.
Qed.

(** Two iterates that mirror each other have the same norm. *)
Lemma length_mirror (z z' : float3 float) :
  mirror_state z z' -> length z' = length z.
Proof.
  intros (Hx & Hy & Hz). unfold length, dot.
  cbn [sqrtf fadd fmul ops]. rewrite Hx, Hy, (mirrors_square Hz). reflexivity.
Qed.

Section Parity.
Context {lm : Libm float} {parity : LibmParity lm}.

Lemma asinf_mirrors (u v : float) : mirrors u v -> mirrors (asinf u) (asinf v).
Proof.
  intros H. destruct (mirrors_cases H) as [->|[Hz ->]].
  - left. apply asinf_odd.
  - destruct u as [su| | |]; try discriminate.
    right. split; apply asinf_zero.
Qed.

Lemma sinf_mirrors (u v : float) : mirrors u v -> mirrors (sinf u) (sinf v).
Proof.
  intros H. destruct (mirrors_cases H) as [->|[Hz ->]].
  - left. apply sinf_odd.
  - destruct u as [su| | |]; try discriminate.
    right. split; apply sinf_zero.
Qed.

Lemma cosf_mirrors (u v : float) : mirrors u v -> cosf v = cosf u.
Proof.
  intros H. destruct (mirrors_cases H) as [->|[Hz ->]].
  - apply cosf_even.
  - reflexivity.
Qed.

(** One pass through the loop body takes mirrored iterates of mirrored
    points to mirrored iterates, with the same running derivative. *)
Lemma mandelbulb_body_mirror (pos pos' : float3 float) (power : float)
      (z z' : float3 float) (r dr : float) :
  mirror_state pos pos' -> mirror_state z z' ->
  mirror_state (fst (mandelbulb_body pos power z r dr))
               (fst (mandelbulb_body pos' power z' r dr))
  /\ snd (mandelbulb_body pos' power z' r dr)
     = snd (mandelbulb_body pos power z r dr).
Proof.
  intros (Px & Py & Pz) (Zx & Zy & Zz).
  unfold mandelbulb_body, smulv, vadd. cbn [fst snd fx fy fz].
  cbn [fadd fmul fdiv ops].
  assert (Ht : mirrors (SFmul prec emax (asinf (SFdiv prec emax (fz z) r)) power)
                       (SFmul prec emax (asinf (SFdiv prec emax (fz z') r)) power))
    by (apply mirrors_mul_l, asinf_mirrors, mirrors_div; exact Zz).
  rewrite Zx, Zy, Px, Py, (cosf_mirrors Ht).
  split; [|reflexivity].
  unfold mirror_state. cbn [fx fy fz].
  split; [reflexivity|]. split; [reflexivity|].
  apply mirrors_add; [|exact Pz].
  apply mirrors_mul_r, sinf_mirrors. exact Ht.
Qed.

Lemma mandelbulb_loop_mirror (n : nat) (pos pos' : float3 float)
      (bail power : float) :
  mirror_state pos pos' ->
  forall (z z' : float3 float) (dr r : float),
    mirror_state z z' ->
    mandelbulb_loop n pos' bail power z' dr r
    = mandelbulb_loop n pos bail power z dr r.
Proof.
  intros Hp. induction n as [|n IH]; intros z z' dr r Hz; [reflexivity|].
  rewrite !mandelbulb_loop_unfold, (length_mirror Hz).
  destruct (length z >? bail); [reflexivity|].
  destruct (@mandelbulb_body_mirror pos pos' power z z' (length z) dr Hp Hz)
    as [Hs Hd].
  rewrite Hd. apply IH. exact Hs.
Qed.

Lemma mirror_z_state (p : float3 float) : mirror_state p (mirror_z p).
Proof.
  unfold mirror_state, mirror_z. cbn [fx fy fz fneg ops].
  split; [reflexivity|]. split; [reflexivity|]. apply mirrors_opp.
Qed.

Lemma mandelbulb_mirror (pos : float3 float) (iterations : Z)
      (bail power : float) :
  mandelbulb (mirror_z pos) iterations bail power
  = mandelbulb pos iterations bail power.
Proof.
  unfold mandelbulb.
  rewrite (@mandelbulb_loop_mirror (Z.to_nat iterations) pos (mirror_z pos)
             bail power (mirror_z_state pos) pos (mirror_z pos)
             (flit 1 1) (flit 0 1) (mirror_z_state pos)).
  reflexivity.
Qed.

Lemma fractal_term_mirror (pos : float3 float) :
  fractal_term (mirror_z pos) = fractal_term pos.
Proof.
  unfold fractal_term.
  replace (vdivs (mirror_z pos) (flit 23 10))
    with (mirror_z (vdivs pos (flit 23 10))).
  - rewrite mandelbulb_mirror. reflexivity.
  - unfold mirror_z, vdivs. cbn [fx fy fz fneg fdiv ops].
    rewrite SFdiv_opp_l. reflexivity.
Qed.

(** X9. On binary32, with a math library that has the parities of the real
    functions ([asinf] and [sinf] odd and zero at zero, [cosf] even),
    negating the depth of the query point leaves the estimate of [mandelbulb]
    unchanged bit for bit, whatever the iteration count, the bailout and the
    power; so the fractal term is unchanged, and for a point whose height is
    a binary32 value so are the Mandelbulb scene and its colour. *)
Theorem mandelbulb_depth_mirror :
  (forall (pos : float3 float) (iterations : Z) (bail power : float),
      mandelbulb (mirror_z pos) iterations bail power
      = mandelbulb pos iterations bail power)
  /\ (forall pos : float3 float,
         valid (fy pos) = true ->
         mandelbulbScene (mirror_z pos) = mandelbulbScene pos
         /\ mandelbulbColor (mirror_z pos) = mandelbulbColor pos).
Proof.
  split; [exact mandelbulb_mirror|].
  intros [x y z] Hy. cbn [fy] in Hy.
  destruct (@ground_plane_mirror x y z Hy) as [_ Pz].
  pose proof (fractal_term_mirror (make_float3 x y z)) as Ft.
  rewrite !mandelbulbScene_union, !mandelbulbColor_select.
  unfold mirror_z in *. cbn [fx fy fz fneg ops] in *.
  rewrite Ft, Pz. split; reflexivity.
Qed.
End Parity.

Lemma symmetric_libm_parity : LibmParity symmetric_libm.
Proof.
  split; cbn [asinf sinf cosf symmetric_libm]; try reflexivity.
  intros a. destruct a; reflexivity.
Qed.

Lemma mandelbulb_depth_mirror_witness :
  mandelbulbScene (lm := symmetric_libm)
    (mirror_z (make_float3 (flit 1 2) (flit 1 4) (flit 3 4) : float3 float))
  = mandelbulbScene (lm := symmetric_libm)
      (make_float3 (flit 1 2) (flit 1 4) (flit 3 4) : float3 float).
Proof.
  apply (@mandelbulb_depth_mirror symmetric_libm symmetric_libm_parity).
  vm_compute. reflexivity.
Defined.
End B32Mirror3.
